(** * Lexicon-based sentiment classifier (Lab-5/Task_2.py)

    A shallow embedding of [analyze_sentiment] and [_tokenize], and the
    properties of the scoring engine: phrase masking, the token scan with its
    negation window and its sticky emphasis flag, and the final label.

    A Python [str] is a sequence of Unicode code points.  The ASCII part of
    every character table is written out; what the interpreter's Unicode
    database says about the other code points is a parameter. *)

From Stdlib Require Import Ascii String.
From Stdlib Require Import List Bool Arith NArith ZArith Lia Sorted Permutation.
Import ListNotations.

Set Implicit Arguments.

(** ** Strings *)

(** A code point. *)
Definition char := N.

(** A Python [str]. *)
Definition str := list char.

(** The [str] a Rocq string literal stands for, one code point per
    character (the literals of this file are ASCII). *)
Definition str_of (x : string) : str := map N_of_ascii (list_ascii_of_string x).

Definition char_eqb : char -> char -> bool := N.eqb.

(** [a == b] on [str]. *)
Fixpoint str_eqb (a b : str) : bool :=
  match a, b with
  | [], [] => true
  | x :: a', y :: b' => char_eqb x y && str_eqb a' b'
  | _, _ => false
  end.

(** [t in words], for a set of strings kept as the list of its members. *)
Definition mem (t : str) (words : list str) : bool := existsb (str_eqb t) words.

(** [s.startswith(sub)]: the comparison [str.find] makes at one offset. *)
Fixpoint starts_with (sub s : str) : bool :=
  match sub, s with
  | [], _ => true
  | x :: sub', y :: s' => char_eqb x y && starts_with sub' s'
  | _ :: _, [] => false
  end.

(** The lowest offset at which [sub] occurs in [s]. *)
Fixpoint find_in (sub s : str) : option nat :=
  if starts_with sub s then Some 0
  else match s with
       | [] => None
       | _ :: s' => option_map S (find_in sub s')
       end.

(** [s.find(sub, start)]; [None] is Python's [-1]. *)
Definition find (s sub : str) (start : nat) : option nat :=
  if length s <? start then None
  else option_map (Nat.add start) (find_in sub (skipn start s)).

(** The slice [s[i:j]]. *)
Definition slice (s : str) (i j : nat) : str := firstn (j - i) (skipn i s).

Definition SPACE : char := 32%N.
Definition APOSTROPHE : char := 39%N.

(** ** Character tables *)

(** What the interpreter's Unicode database says about the code points from
    128 on, and about the strings that hold one. *)
Record UnicodeDB := {
  (** [c.isalnum()] *)
  uni_isalnum : char -> bool;
  (** [c.isspace()] *)
  uni_isspace : char -> bool;
  (** [s.lower()], which is not a map over the characters: a capital sigma
      is lowered by its context and some characters lower to two. *)
  uni_lower : str -> str
}.

Definition between (lo hi c : N) : bool := ((lo <=? c) && (c <=? hi))%N.

Definition is_ascii (c : char) : bool := (c <? 128)%N.

Definition ascii_lower (c : char) : char :=
  if between 65 90 c then (c + 32)%N else c.

Definition ascii_isalnum (c : char) : bool :=
  between 48 57 c || between 65 90 c || between 97 122 c.

(** Tab, line feed, vertical tab, form feed, carriage return, the four
    separators 0x1C to 0x1F, and space. *)
Definition ascii_isspace (c : char) : bool :=
  between 9 13 c || between 28 31 c || char_eqb c SPACE.

Section Engine.

Variable U : UnicodeDB.

(** [text.lower()].  An ASCII string is lowered character by character. *)
Definition lower (s : str) : str :=
  if forallb is_ascii s then map ascii_lower s else uni_lower U s.

Definition isspace (c : char) : bool :=
  if is_ascii c then ascii_isspace c else uni_isspace U c.

(** The class [\w] of a [str] pattern: alphanumeric, or the underscore. *)
Definition is_word (c : char) : bool :=
  if is_ascii c then ascii_isalnum c || char_eqb c 95%N else uni_isalnum U c.

(** The class [[\w']]. *)
Definition in_class (c : char) : bool := is_word c || char_eqb c APOSTROPHE.

Fixpoint drop_while (p : char -> bool) (s : str) : str :=
  match s with
  | [] => []
  | c :: s' => if p c then drop_while p s' else s
  end.

Fixpoint take_while (p : char -> bool) (s : str) : str :=
  match s with
  | [] => []
  | c :: s' => if p c then c :: take_while p s' else []
  end.

(** [text.strip()] *)
Definition strip (s : str) : str :=
  rev (drop_while isspace (rev (drop_while isspace s))).

(** ** The tokenizer: [re.findall(r"\b[\w']+\b", text.lower())] *)

(** The matcher walks the subject from left to right; [prev] is the character
    before the current position ([None] at the start of the subject) and the
    list is what lies from the position on. *)

Definition word_opt (c : option char) : bool :=
  match c with
  | Some c => is_word c
  | None => false
  end.

(** [\b] at the current position: a word character on exactly one side. *)
Definition boundary (prev : option char) (rest : str) : bool :=
  xorb (word_opt prev) (word_opt (hd_error rest)).

(** The rest of [[\w']+\b] once a character [prev] of the class has been
    taken: the greedy repetition takes one more character when it can, and
    when what follows does not match from there it gives the character back
    and tries [\b] here.  The result is the number of further characters
    taken. *)
Fixpoint match_more (prev : char) (rest : str) : option nat :=
  let here := if boundary (Some prev) rest then Some 0 else None in
  match rest with
  | c :: rest' =>
      if in_class c then
        match match_more c rest' with
        | Some k => Some (S k)
        | None => here
        end
      else here
  | [] => here
  end.

(** A match of the whole pattern at the current position: its length. *)
Definition match_at (prev : option char) (rest : str) : option nat :=
  if boundary prev rest then
    match rest with
    | c :: rest' => if in_class c then option_map S (match_more c rest') else None
    | [] => None
    end
  else None.

(** [findall]: the matches from left to right, each search starting where the
    last match ended, and one character further after a failure.  Every step
    leaves less of the subject, so [S (length rest)] steps reach its end. *)
Fixpoint findall_from (fuel : nat) (prev : option char) (rest : str) : list str :=
  match fuel with
  | 0 => []
  | S fuel' =>
      match match_at prev rest with
      | Some k =>
          firstn k rest
          :: findall_from fuel' (Some (last (firstn k rest) 0%N)) (skipn k rest)
      | None =>
          match rest with
          | [] => []
          | c :: rest' => findall_from fuel' (Some c) rest'
          end
      end
  end.

Definition findall (s : str) : list str := findall_from (S (length s)) None s.

Definition _tokenize (text : str) : list str := findall (lower text).

(** ** Tokens as trimmed runs *)

Definition is_apostrophe (c : char) : bool := char_eqb c APOSTROPHE.

(** A run in progress ends: it is one of the runs unless it is empty. *)
Definition close_run (cur : str) : list str :=
  match cur with
  | [] => []
  | _ => [cur]
  end.

(** The maximal runs of characters of the class [[\w']], from left to right;
    [cur] is the run in progress. *)
Fixpoint runs_from (cur : str) (s : str) : list str :=
  match s with
  | [] => close_run cur
  | c :: s' =>
      if in_class c then runs_from (cur ++ [c]) s'
      else close_run cur ++ runs_from [] s'
  end.

Definition runs (s : str) : list str := runs_from [] s.

(** A string without the apostrophes at its end. *)
Fixpoint rstrip_apostrophes (r : str) : str :=
  match r with
  | [] => []
  | c :: r' =>
      match rstrip_apostrophes r' with
      | [] => if is_apostrophe c then [] else [c]
      | t => c :: t
      end
  end.

(** A string without the apostrophes at either end. *)
Definition strip_apostrophes (r : str) : str :=
  rstrip_apostrophes (drop_while is_apostrophe r).

Definition nonempty (r : str) : bool :=
  match r with
  | [] => false
  | _ => true
  end.

(** The runs, each without the apostrophes at its ends, those that are
    nothing but apostrophes left out. *)
Definition trimmed_runs (s : str) : list str :=
  filter nonempty (map strip_apostrophes (runs s)).

(** The shape of a token: not empty, made of characters of the class, with
    a word character at either end. *)
Definition token_shape (t : str) : Prop :=
  t <> []
  /\ forallb in_class t = true
  /\ is_word (hd 0%N t) = true
  /\ is_word (last t 0%N) = true.

(** What the scan of [findall] keeps true of its position: the character
    before it is not a word character, or what is left of the run it stands
    in is apostrophes only (the position a match has just ended at). *)
Definition scan_inv (prev : option char) (rest : str) : Prop :=
  word_opt prev = false
  \/ forallb is_apostrophe (take_while in_class rest) = true.

(** ** The lexicon *)

(** The module's four tables.  [PHRASE_SENTIMENT] is a [dict], read in the
    order of its entries. *)
Record Lexicon := {
  POSITIVE_WORDS : list str;
  NEGATIVE_WORDS : list str;
  NEGATIONS : list str;
  PHRASE_SENTIMENT : list (str * Z)
}.

(** ** Phrase overrides *)

(** [working_text[:idx] + " " * len(phrase) + working_text[idx + len(phrase):]] *)
Definition mask_at (working_text : str) (idx len : nat) : str :=
  firstn idx working_text ++ repeat SPACE len ++ skipn (idx + len) working_text.

(** The [while True] loop of one phrase, from the values of [working_text],
    [start] and [score] at the head of an iteration.  [None]: the loop has
    not left after [fuel] iterations. *)
Fixpoint mask_loop (fuel : nat) (phrase : str) (phrase_weight : Z)
    (working_text : str) (start : nat) (score : Z) : option (Z * str) :=
  match fuel with
  | 0 => None
  | S fuel' =>
      match find working_text phrase start with
      | None => Some (score, working_text)
      | Some idx =>
          mask_loop fuel' phrase phrase_weight
            (mask_at working_text idx (length phrase))
            (idx + length phrase) (score + phrase_weight)
      end
  end.

(** The [for] loop over [PHRASE_SENTIMENT.items()].  A phrase of [n > 0]
    characters is found at most [length working_text / n] times, so the
    iterations given to its loop are enough for it. *)
Fixpoint mask_phrases (items : list (str * Z)) (working_text : str) (score : Z)
    : option (Z * str) :=
  match items with
  | [] => Some (score, working_text)
  | (phrase, phrase_weight) :: items' =>
      match mask_loop (S (length working_text)) phrase phrase_weight
                      working_text 0 score with
      | Some (score', working_text') => mask_phrases items' working_text' score'
      | None => None
      end
  end.

(** The offsets the loop of one phrase finds, in the text as it was before
    the loop: each search starts where the last occurrence ended. *)
Fixpoint hits_from (fuel : nat) (text phrase : str) (start : nat) : list nat :=
  match fuel with
  | 0 => []
  | S fuel' =>
      match find text phrase start with
      | None => []
      | Some idx => idx :: hits_from fuel' text phrase (idx + length phrase)
      end
  end.

Definition hits (text phrase : str) : list nat :=
  hits_from (S (length text)) text phrase 0.

(** The text with the [len] characters at each of the offsets masked. *)
Definition mask_all (text : str) (len : nat) (offsets : list nat) : str :=
  fold_left (fun t idx => mask_at t idx len) offsets text.

(** Position [p] lies in the [len] characters at one of the offsets. *)
Definition covered (offsets : list nat) (len p : nat) : bool :=
  existsb (fun h => (h <=? p) && (p <? h + len)) offsets.

(** The repeated search of one phrase, as a relation: from [start] on, the
    loop finds these offsets and then nothing more. *)
Inductive scan_hits (text phrase : str) : nat -> list nat -> Prop :=
  | scan_done start :
      find text phrase start = None -> scan_hits text phrase start []
  | scan_hit start idx offsets :
      find text phrase start = Some idx ->
      scan_hits text phrase (idx + length phrase) offsets ->
      scan_hits text phrase start (idx :: offsets).

(** ** The token scan *)

Record scan_state := {
  score : Z;
  negate_window : Z;
  after_but : bool
}.

Definition BUT : str := str_of "but".

(** The base polarity of a token. *)
Definition base_delta (L : Lexicon) (token : str) : Z :=
  if mem token (POSITIVE_WORDS L) then 1
  else if mem token (NEGATIVE_WORDS L) then (-1)
  else 0.

(** What a token with base polarity [d] adds to the score. *)
Definition word_delta (st : scan_state) (d : Z) : Z :=
  let d := if (negate_window st >? 0)%Z then (d * -1)%Z else d in
  if after_but st then (d * 2)%Z else d.

(** One iteration of [for token in tokens]. *)
Definition step (L : Lexicon) (st : scan_state) (token : str) : scan_state :=
  if str_eqb token BUT then
    {| score := score st; negate_window := negate_window st; after_but := true |}
  else if mem token (NEGATIONS L) then
    {| score := score st; negate_window := 3; after_but := after_but st |}
  else
    let d := base_delta L token in
    let score' := if (d =? 0)%Z then score st else (score st + word_delta st d)%Z in
    let window' := if (negate_window st >? 0)%Z then (negate_window st - 1)%Z
                   else negate_window st in
    {| score := score'; negate_window := window'; after_but := after_but st |}.

Definition scan (L : Lexicon) (st : scan_state) (tokens : list str) : scan_state :=
  fold_left (step L) tokens st.

(** The state before the first token. *)
Definition start_state (score0 : Z) : scan_state :=
  {| score := score0; negate_window := 0; after_but := false |}.

(** ** The classifier *)

(** The three [return]s that end [analyze_sentiment]. *)
Definition label_of (score : Z) : string :=
  if (score >? 0)%Z then "positive"%string
  else if (score <? 0)%Z then "negative"%string
  else "neutral"%string.

(** [not text or not text.strip()] *)
Definition blank (text : str) : bool :=
  match text with
  | [] => true
  | _ => match strip text with [] => true | _ => false end
  end.

(** The value of [score] when the token loop ends, for a text that is not
    blank.  [None]: a phrase loop does not end. *)
Definition final_score (L : Lexicon) (text : str) : option Z :=
  match mask_phrases (PHRASE_SENTIMENT L) (lower text) 0 with
  | Some (score0, working_text) =>
      Some (score (scan L (start_state score0) (_tokenize working_text)))
  | None => None
  end.

Definition analyze_with (L : Lexicon) (text : str) : option string :=
  if blank text then Some "neutral"%string
  else option_map label_of (final_score L text).

End Engine.

(** The tables of the module. *)
Definition lexicon : Lexicon := {|
  POSITIVE_WORDS := map str_of
    ["good"; "great"; "excellent"; "amazing"; "delicious"; "happy"; "love";
     "like"; "wonderful"; "fantastic"; "nice"; "pleasant"; "satisfied";
     "tasty"; "fresh"; "awesome"; "enjoy"; "enjoyed"; "enjoyable";
     "delightful"]%string;
  NEGATIVE_WORDS := map str_of
    ["bad"; "terrible"; "awful"; "horrible"; "disgusting"; "sad"; "hate";
     "dislike"; "worst"; "poor"; "nasty"; "unpleasant"; "unsatisfied";
     "stale"; "bland"; "cold"; "overcooked"; "undercooked"]%string;
  NEGATIONS := map str_of
    ["not"; "no"; "never"; "isn't"; "wasn't"; "aren't"; "don't"; "doesn't";
     "didn't"; "can't"; "won't"; "n't"]%string;
  PHRASE_SENTIMENT := [(str_of "good taste", (-2)%Z)]
|}.

(** [analyze_sentiment(text)]; [None] would be a call that does not return. *)
Definition analyze_sentiment (U : UnicodeDB) (text : str) : option string :=
  analyze_with U lexicon text.

(** The state with the emphasis flag down, the score set to [score0]. *)
Definition unemphasized (st : scan_state) (score0 : Z) : scan_state :=
  {| score := score0; negate_window := negate_window st; after_but := false |}.

Definition is_but (token : str) : bool := str_eqb token BUT.

(** A token that is neither the conjunction nor a negation marker. *)
Definition ordinary (L : Lexicon) (token : str) : bool :=
  negb (is_but token) && negb (mem token (NEGATIONS L)).

Definition GOOD_TASTE : str := str_of "good taste".

Definition NT : str := str_of "n't".

(** The module's tables with the entry "n't" taken out of [NEGATIONS]. *)
Definition lexicon_without_nt : Lexicon := {|
  POSITIVE_WORDS := POSITIVE_WORDS lexicon;
  NEGATIVE_WORDS := NEGATIVE_WORDS lexicon;
  NEGATIONS := filter (fun t => negb (str_eqb t NT)) (NEGATIONS lexicon);
  PHRASE_SENTIMENT := PHRASE_SENTIMENT lexicon
|}.

(** [working_text] when the phrase loop of the module's one phrase has ended. *)
Definition masked_text (U : UnicodeDB) (text : str) : str :=
  mask_all (lower U text) (length GOOD_TASTE) (hits (lower U text) GOOD_TASTE).

(** How many of the tokens are in a set of words. *)
Definition count_in (words : list str) (tokens : list str) : Z :=
  Z.of_nat (length (filter (fun t => mem t words) tokens)).

(** No end of the phrase is also a start of it: two occurrences of such a
    phrase never overlap. *)
Definition unbordered (phrase : str) : bool :=
  forallb (fun d => negb (starts_with (skipn d phrase) phrase))
          (seq 1 (length phrase - 1)).

(** A database to compute with, right up to U+00FF: the letters, digits and
    fractions of Latin-1 are alphanumeric, the next-line control and the
    no-break space are spaces, and the capital letters of Latin-1 lower to
    the letter 32 places on.  It takes every later code point for a symbol. *)
Definition latin1_isalnum (c : char) : bool :=
  between 192 214 c || between 216 246 c || between 248 255 c
  || existsb (char_eqb c) [170; 178; 179; 181; 185; 186; 188; 189; 190]%N.

Definition latin1_lower (c : char) : char :=
  if between 192 214 c || between 216 222 c then (c + 32)%N else ascii_lower c.

Definition sample_db : UnicodeDB := {|
  uni_isalnum := latin1_isalnum;
  uni_isspace := fun c => char_eqb c 133%N || char_eqb c 160%N;
  uni_lower := map latin1_lower
|}.

(** [main]: [line] is what [input] returns, [None] when it raises
    [EOFError]; the result is the line [print] writes. *)
Definition main (U : UnicodeDB) (line : option str) : option string :=
  let text := match line with Some text => text | None => [] end in
  option_map (fun label => (label ++ " sentiment")%string)
             (analyze_sentiment U text).

(** A token with a polarity: one that [word_delta] is computed for. *)
Definition polar (L : Lexicon) (token : str) : bool :=
  negb (base_delta L token =? 0)%Z.

(** How many of the tokens have a polarity. *)
Definition count_polar (L : Lexicon) (tokens : list str) : Z :=
  Z.of_nat (length (filter (polar L) tokens)).

(** ** The product recommender (Lab-5/Task_3.py) *)

Module Recommender.

(** What a call gives: the value it returns or the exception it raises. *)
Inductive outcome (A : Type) : Type :=
  | Returns (value : A)
  | Raises (exception : string).

Arguments Returns {A} value.
Arguments Raises {A} exception.

(** The generator of [random], as the numbers it will give: a call takes the
    next one (0 when there is none left) and reduces it to the range it draws
    from.  Every outcome the generator can give is that of some tape. *)
Definition tape := list nat.

Definition next (t : tape) : nat * tape :=
  match t with
  | [] => (0, [])
  | n :: t' => (n, t')
  end.

(** [random.choice(seq)] *)
Definition choice (A : Type) (seq : list A) (t : tape) : outcome (A * tape) :=
  let (n, t') := next t in
  match nth_error seq (n mod length seq) with
  | Some x => Returns (x, t')
  | None => Raises "IndexError"
  end.

(** [k] draws without replacement from what is left of the population. *)
Fixpoint draw (A : Type) (pool : list A) (k : nat) (t : tape) : list A * tape :=
  match k with
  | 0 => ([], t)
  | S k' =>
      let (n, t1) := next t in
      let i := n mod length pool in
      match nth_error pool i with
      | Some x =>
          let (rest, t2) := draw (firstn i pool ++ skipn (S i) pool) k' t1 in
          (x :: rest, t2)
      | None => ([], t1)
      end
  end.

(** [random.sample(population, k)] *)
Definition sample (A : Type) (population : list A) (k : Z) (t : tape)
    : outcome (list A * tape) :=
  if ((k <? 0) || (Z.of_nat (length population) <? k))%Z
  then Raises "ValueError"
  else Returns (draw population (Z.to_nat k) t).

(** [d[key]] and [key in d], for a [dict] kept as the list of its items. *)
Fixpoint lookup (A : Type) (key : str) (d : list (str * A)) : option A :=
  match d with
  | [] => None
  | (k, v) :: d' => if str_eqb key k then Some v else lookup key d'
  end.

(** [list(dict.fromkeys(l))]: the first of each value, in order. *)
Fixpoint unique_from (seen l : list str) : list str :=
  match l with
  | [] => []
  | x :: l' =>
      if mem x seen then unique_from seen l' else x :: unique_from (x :: seen) l'
  end.

Definition unique (l : list str) : list str := unique_from [] l.

(** [l[:n]] *)
Definition upto (A : Type) (l : list A) (n : Z) : list A :=
  if (0 <=? n)%Z then firstn (Z.to_nat n) l
  else firstn (Z.to_nat (Z.of_nat (length l) + n)) l.

(** [l[-n:]], for [n > 0] *)
Definition last_n (A : Type) (l : list A) (n : nat) : list A :=
  skipn (length l - n) l.

(** [keyword in search_lower] *)
Definition contains (s sub : str) : bool :=
  match find_in sub s with
  | Some _ => true
  | None => false
  end.

Record ProductRecommender := {
  products : list (str * list (str * list str));
  user_history : list str;
  category_mappings : list (str * list str)
}.

(** The tables [__init__] sets. *)
Definition catalog : list (str * list (str * list str)) :=
  [
   (str_of "clothes",
     [
      (str_of "casual",
       map str_of
         ["T-Shirt"; "Jeans"; "Sneakers"; "Hoodie"; "Sweatpants"]%string);
      (str_of "formal",
       map str_of
         ["Suit"; "Dress Shirt"; "Tie"; "Dress Shoes"; "Blazer"]%string);
      (str_of "sports",
       map str_of
         ["Sports Jersey"; "Athletic Shorts"; "Running Shoes"; "Sports Bra";
          "Track Pants"]%string);
      (str_of "winter",
       map str_of
         ["Winter Jacket"; "Sweater"; "Scarf"; "Gloves"; "Boots"]%string)]);
   (str_of "mobile",
     [
      (str_of "smartphones",
       map str_of
         ["iPhone 15"; "Samsung Galaxy S24"; "Google Pixel 8"; "OnePlus 12";
          "Xiaomi 14"]%string);
      (str_of "accessories",
       map str_of
         ["Phone Case"; "Screen Protector"; "Wireless Charger"; "Power Bank";
          "Bluetooth Headphones"]%string);
      (str_of "tablets",
       map str_of
         ["iPad Pro"; "Samsung Galaxy Tab"; "Amazon Fire Tablet"; "Lenovo Tab";
          "Microsoft Surface"]%string)]);
   (str_of "toys",
     [
      (str_of "educational",
       map str_of
         ["Building Blocks"; "Puzzle Set"; "Science Kit"; "Art Supplies";
          "Learning Tablet"]%string);
      (str_of "action",
       map str_of
         ["Action Figures"; "Remote Control Car"; "Drones"; "Nerf Guns";
          "Robot Toys"]%string);
      (str_of "board_games",
       map str_of
         ["Chess"; "Monopoly"; "Scrabble"; "Risk"; "Catan"]%string);
      (str_of "outdoor",
       map str_of
         ["Bicycle"; "Scooter"; "Trampoline"; "Swimming Pool"; "Tennis Racket"]%string)]);
   (str_of "games",
     [
      (str_of "pc_games",
       map str_of
         ["Cyberpunk 2077"; "Elden Ring"; "Red Dead Redemption 2";
          "The Witcher 3"; "GTA V"]%string);
      (str_of "console_games",
       map str_of
         ["God of War"; "Spider-Man"; "Zelda: Tears of Kingdom"; "Mario Kart";
          "FIFA 24"]%string);
      (str_of "mobile_games",
       map str_of
         ["PUBG Mobile"; "Candy Crush"; "Among Us"; "Clash of Clans";
          "Pokemon Go"]%string)]);
   (str_of "electronics",
     [
      (str_of "laptops",
       map str_of
         ["MacBook Pro"; "Dell XPS"; "HP Spectre"; "Lenovo ThinkPad"; "ASUS ROG"]%string);
      (str_of "gaming",
       map str_of
         ["Gaming Mouse"; "Mechanical Keyboard"; "Gaming Headset";
          "Graphics Card"; "Gaming Monitor"]%string);
      (str_of "home",
       map str_of
         ["Smart TV"; "Bluetooth Speaker"; "Smart Bulbs"; "Security Camera";
          "Robot Vacuum"]%string)]);
   (str_of "books",
     [
      (str_of "fiction",
       map str_of
         ["The Great Gatsby"; "1984"; "To Kill a Mockingbird";
          "Pride and Prejudice"; "The Hobbit"]%string);
      (str_of "non_fiction",
       map str_of
         ["Sapiens"; "Atomic Habits"; "Rich Dad Poor Dad"; "The Power of Now";
          "Thinking Fast and Slow"]%string);
      (str_of "self_help",
       map str_of
         ["The 7 Habits"; "How to Win Friends"; "The Secret"; "Mindset";
          "Deep Work"]%string)])].

Definition mappings : list (str * list str) :=
  [
   (str_of "clothes",
    map str_of ["clothes"; "clothing"; "apparel"; "fashion"; "wear"; "dress"]%string);
   (str_of "mobile",
    map str_of ["mobile"; "phone"; "smartphone"; "cellphone"; "telephone"]%string);
   (str_of "toys",
    map str_of ["toys"; "toy"; "play"; "children"; "kids"]%string);
   (str_of "games",
    map str_of ["games"; "game"; "gaming"; "play"; "entertainment"]%string);
   (str_of "electronics",
    map str_of ["electronics"; "electronic"; "tech"; "technology"; "gadgets"]%string);
   (str_of "books",
    map str_of ["books"; "book"; "reading"; "literature"; "novel"]%string)].

(** [ProductRecommender()] *)
Definition init : ProductRecommender :=
  {| products := catalog; user_history := []; category_mappings := mappings |}.

Definition GENERAL : str := str_of "general".

Section Methods.

Variable U : UnicodeDB.

Definition add_to_history (self : ProductRecommender) (search_term : str)
    : ProductRecommender :=
  {| products := products self;
     user_history := user_history self ++ [lower U search_term];
     category_mappings := category_mappings self |}.

(** The [for] loop of [get_category_from_search] and the [return] after it. *)
Fixpoint first_category (items : list (str * list str)) (search_lower : str) : str :=
  match items with
  | [] => GENERAL
  | (category, keywords) :: items' =>
      if existsb (contains search_lower) keywords then category
      else first_category items' search_lower
  end.

Definition get_category_from_search (self : ProductRecommender) (search_term : str)
    : str :=
  first_category (category_mappings self) (lower U search_term).

(** One iteration of the loop over the recent searches. *)
Definition history_step (self : ProductRecommender) (search : str)
    (history_recommendations : list str) (t : tape) : outcome (list str * tape) :=
  let category := get_category_from_search self search in
  match lookup category (products self) with
  | None => Returns (history_recommendations, t)
  | Some category_products =>
      match map fst category_products with
      | [] => Returns (history_recommendations, t)
      | subcategories =>
          match choice subcategories t with
          | Raises e => Raises e
          | Returns (random_subcategory, t1) =>
              match lookup random_subcategory category_products with
              | None => Raises "KeyError"
              | Some [] => Returns (history_recommendations, t1)
              | Some chosen =>
                  match choice chosen t1 with
                  | Raises e => Raises e
                  | Returns (product, t2) =>
                      Returns (history_recommendations ++ [product], t2)
                  end
              end
          end
      end
  end.

Fixpoint history_loop (self : ProductRecommender) (recent_searches : list str)
    (history_recommendations : list str) (t : tape) : outcome (list str * tape) :=
  match recent_searches with
  | [] => Returns (history_recommendations, t)
  | search :: rest =>
      match history_step self search history_recommendations t with
      | Raises e => Raises e
      | Returns (history_recommendations', t') =>
          history_loop self rest history_recommendations' t'
      end
  end.

(** [num_recommendations] is not read. *)
Definition get_history_based_recommendations (self : ProductRecommender)
    (num_recommendations : Z) (t : tape) : outcome (list str * tape) :=
  history_loop self (last_n (user_history self) 3) [] t.

Definition get_recommendations (self : ProductRecommender) (search_term : str)
    (num_recommendations : Z) (t : tape) : outcome (list str * tape) :=
  let category := get_category_from_search self search_term in
  let sampled :=
    match lookup category (products self) with
    | Some category_products =>
        let all_products := concat (map snd category_products) in
        sample all_products
               (Z.min num_recommendations (Z.of_nat (length all_products))) t
    | None => Returns ([], t)
    end in
  match sampled with
  | Raises e => Raises e
  | Returns (recommendations, t1) =>
      let with_history :=
        match user_history self with
        | [] => Returns (recommendations, t1)
        | _ =>
            match get_history_based_recommendations self num_recommendations t1 with
            | Raises e => Raises e
            | Returns (history_recommendations, t2) =>
                Returns (recommendations ++ history_recommendations, t2)
            end
        end in
      match with_history with
      | Raises e => Raises e
      | Returns (recommendations', t') =>
          Returns (upto (unique recommendations') num_recommendations, t')
      end
  end.

End Methods.

(** What one turn of the loop of [main] prints, without its layout: the
    farewell, the history, the categories, the recommendations for a search
    (under their heading, or the line that says there are none), or the
    message of an exception. *)
Inductive printed : Type :=
  | Farewell
  | SearchHistory (entries : list str)
  | Categories (names : list str)
  | Recommendations (search_term : str) (recommended : list str)
  | ErrorOccurred (exception : string).

(** One turn of the [while True] loop of [main], on the line that [input]
    returns: the recommender and the generator after it, what it prints, and
    whether the loop goes on. *)
Definition turn (U : UnicodeDB) (recommender : ProductRecommender) (line : str)
    (t : tape) : ProductRecommender * tape * list printed * bool :=
  let search_term := strip U line in
  match search_term with
  | [] => (recommender, t, [], true)
  | _ =>
      if str_eqb (lower U search_term) (str_of "quit") then
        (recommender, t, [Farewell], false)
      else if str_eqb (lower U search_term) (str_of "history") then
        (recommender, t, [SearchHistory (user_history recommender)], true)
      else if str_eqb (lower U search_term) (str_of "categories") then
        (recommender, t, [Categories (map fst (products recommender))], true)
      else
        let recommender' := add_to_history U recommender search_term in
        match get_recommendations U recommender' search_term 5 t with
        | Returns (recommendations, t') =>
            (recommender', t', [Recommendations search_term recommendations], true)
        | Raises e => (recommender', t, [ErrorOccurred e], true)
        end
  end.

(** No string is in the list twice. *)
Fixpoint distinct (l : list str) : bool :=
  match l with
  | [] => true
  | x :: l' => negb (mem x l') && distinct l'
  end.

(** A product of the tables: one of the items of a subcategory. *)
Definition in_catalog (self : ProductRecommender) (product : str) : Prop :=
  exists category subcategories subcategory items,
    In (category, subcategories) (products self)
    /\ In (subcategory, items) subcategories
    /\ In product items.

End Recommender.

(** Two facts of the Unicode database that some statements rest on: no
    character is both a space and alphanumeric, and a string of spaces has
    no letter to lower. *)
Definition spaces_not_alnum (U : UnicodeDB) : Prop :=
  forall c, uni_isspace U c = true -> uni_isalnum U c = false.

Definition spaces_lower_to_themselves (U : UnicodeDB) : Prop :=
  forall s, forallb (isspace U) s = true -> uni_lower U s = s.

(** * Properties *)

(** ** Strings *)

Lemma str_eqb_eq (a b : str) : str_eqb a b = true <-> a = b.
Proof.
  revert b; induction a as [|x a IH]; intros [|y b]; simpl; try easy.
  unfold char_eqb. rewrite andb_true_iff, N.eqb_eq, IH.
  split; [intros [-> ->]; reflexivity | intros H; inversion H; auto].
Qed.

Lemma str_eqb_refl (a : str) : str_eqb a a = true.
Proof. apply str_eqb_eq; reflexivity. Qed.

Lemma str_eqb_neq (a b : str) : str_eqb a b = false <-> a <> b.
Proof.
  destruct (str_eqb a b) eqn:E.
  - apply str_eqb_eq in E. split; [discriminate | intros H; contradiction].
  - split; [intros _ H | reflexivity].
    apply str_eqb_eq in H. congruence.
Qed.

Lemma mem_In (t : str) (words : list str) : mem t words = true <-> In t words.
Proof.
  unfold mem. rewrite existsb_exists. split.
  - intros (w & Hw & E). apply str_eqb_eq in E. subst; assumption.
  - intros H. exists t. split; [assumption | apply str_eqb_refl].
Qed.

(** Comparisons on code points, as propositions. *)
Ltac chars :=
  unfold is_apostrophe, ascii_isspace, ascii_isalnum, ascii_lower, is_ascii,
    between, char_eqb, APOSTROPHE, SPACE in *;
  repeat match goal with
    | H : _ && _ = true |- _ => apply andb_true_iff in H; destruct H
    | H : _ || _ = true |- _ => apply orb_true_iff in H; destruct H
    | H : _ || _ = false |- _ => apply orb_false_iff in H; destruct H
    | H : (_ <=? _)%N = true |- _ => apply N.leb_le in H
    | H : (_ <=? _)%N = false |- _ => apply N.leb_gt in H
    | H : (_ <? _)%N = true |- _ => apply N.ltb_lt in H
    | H : (_ <? _)%N = false |- _ => apply N.ltb_ge in H
    | H : (_ =? _)%N = true |- _ => apply N.eqb_eq in H
    | H : (_ =? _)%N = false |- _ => apply N.eqb_neq in H
    end.

(** The two facts hold of [sample_db]. *)
Lemma sample_spaces_not_alnum : spaces_not_alnum sample_db.
Proof.
  intros c H. simpl in *. chars; subst; reflexivity.
Qed.

Lemma sample_spaces_lower : spaces_lower_to_themselves sample_db.
Proof.
  intros s H. simpl. induction s as [|c s IH]; simpl in *; [reflexivity|].
  apply andb_true_iff in H. destruct H as [Hc Hs]. rewrite IH by exact Hs.
  f_equal. unfold isspace in Hc. simpl in Hc. unfold latin1_lower.
  destruct (between 192 214 c || between 216 222 c) eqn:R.
  - exfalso. destruct (is_ascii c) eqn:A; chars; subst; lia.
  - destruct (between 65 90 c) eqn:B.
    + exfalso. destruct (is_ascii c) eqn:A; chars; subst; lia.
    + unfold ascii_lower. rewrite B. reflexivity.
Qed.

Section Tokenizer.

Variable U : UnicodeDB.

Lemma apostrophe_not_word (c : char) : is_apostrophe c = true -> is_word U c = false.
Proof. intros H. chars. subst. reflexivity. Qed.

Lemma class_not_word (c : char) :
  in_class U c = true -> is_word U c = false -> is_apostrophe c = true.
Proof. unfold in_class, is_apostrophe. intros H W. rewrite W in H. exact H. Qed.

Lemma word_in_class (c : char) : is_word U c = true -> in_class U c = true.
Proof. unfold in_class. intros ->. reflexivity. Qed.

Lemma apostrophe_in_class (c : char) : is_apostrophe c = true -> in_class U c = true.
Proof. unfold in_class, is_apostrophe. intros ->. apply orb_true_r. Qed.

Lemma not_class_not_word (c : char) : in_class U c = false -> is_word U c = false.
Proof. unfold in_class. intros H. apply orb_false_iff in H. tauto. Qed.

(** *** Runs *)

Lemma take_drop_while (p : char -> bool) (s : str) :
  take_while p s ++ drop_while p s = s.
Proof. induction s as [|c s IH]; simpl; [|destruct (p c); simpl; rewrite ?IH]; reflexivity. Qed.

Lemma take_while_all (p : char -> bool) (s : str) : forallb p (take_while p s) = true.
Proof. induction s as [|c s IH]; simpl; [|destruct (p c) eqn:E; simpl; rewrite ?E, ?IH]; reflexivity. Qed.

Lemma drop_while_head (p : char -> bool) (s : str) :
  match drop_while p s with [] => True | c :: _ => p c = false end.
Proof. induction s as [|c s IH]; simpl; [|destruct (p c) eqn:E; simpl]; auto. Qed.

Lemma runs_from_run (cur : str) (s : str) :
  runs_from U cur s
  = close_run (cur ++ take_while (in_class U) s)
    ++ runs_from U [] (drop_while (in_class U) s).
Proof.
  revert cur; induction s as [|c s IH]; intros cur; simpl.
  - rewrite !app_nil_r. reflexivity.
  - destruct (in_class U c) eqn:E.
    + rewrite IH, <- app_assoc. reflexivity.
    + rewrite app_nil_r. simpl. rewrite E. reflexivity.
Qed.

Lemma runs_cons_sep (c : char) (s : str) :
  in_class U c = false -> runs U (c :: s) = runs U s.
Proof. unfold runs. simpl. intros ->. reflexivity. Qed.

Lemma runs_cons_class (c : char) (s : str) :
  in_class U c = true ->
  runs U (c :: s)
  = (c :: take_while (in_class U) s) :: runs U (drop_while (in_class U) s).
Proof. unfold runs. simpl. intros ->. rewrite runs_from_run. reflexivity. Qed.

(** *** Trimming *)

Lemma rstrip_cons_keep (c : char) (r : str) :
  is_apostrophe c = false ->
  rstrip_apostrophes (c :: r) = c :: rstrip_apostrophes r.
Proof. simpl. intros ->. destruct (rstrip_apostrophes r); reflexivity. Qed.

Lemma rstrip_all_apostrophes (r : str) :
  forallb is_apostrophe r = true -> rstrip_apostrophes r = [].
Proof.
  induction r as [|c r IH]; simpl; [reflexivity|].
  intros H. apply andb_true_iff in H. destruct H as [Hc Hr].
  rewrite (IH Hr), Hc. reflexivity.
Qed.

Lemma rstrip_split (r : str) :
  exists aps, r = rstrip_apostrophes r ++ aps /\ forallb is_apostrophe aps = true.
Proof.
  induction r as [|c r (aps & E & A)]; simpl.
  - exists []. split; reflexivity.
  - destruct (rstrip_apostrophes r) as [|d t] eqn:R.
    + destruct (is_apostrophe c) eqn:C.
      * exists (c :: aps). simpl in *. rewrite C, A. subst r. split; reflexivity.
      * exists aps. simpl in *. subst r. split; [reflexivity | assumption].
    + exists aps. split; [|assumption]. simpl. f_equal. exact E.
Qed.

Lemma strip_cons_apostrophe (c : char) (r : str) :
  is_apostrophe c = true -> strip_apostrophes (c :: r) = strip_apostrophes r.
Proof. unfold strip_apostrophes. simpl. intros ->. reflexivity. Qed.

Lemma strip_cons_word (c : char) (r : str) :
  is_word U c = true ->
  strip_apostrophes (c :: r) = c :: rstrip_apostrophes r.
Proof.
  intros W. unfold strip_apostrophes. simpl.
  destruct (is_apostrophe c) eqn:C.
  - rewrite (apostrophe_not_word c C) in W. discriminate.
  - apply rstrip_cons_keep. exact C.
Qed.

(** *** The trimmed runs of a string, by its first character *)

Lemma trimmed_nil : trimmed_runs U [] = [].
Proof. reflexivity. Qed.

Lemma trimmed_cons_sep (c : char) (s : str) :
  in_class U c = false -> trimmed_runs U (c :: s) = trimmed_runs U s.
Proof. intros H. unfold trimmed_runs. rewrite runs_cons_sep by exact H. reflexivity. Qed.

Lemma trimmed_no_class_head (s : str) :
  match s with [] => True | c :: _ => in_class U c = false end ->
  runs U s = runs U (drop_while (in_class U) s)
  /\ take_while (in_class U) s = [].
Proof. destruct s as [|c s]; simpl; [auto|]. intros ->. auto. Qed.

Lemma trimmed_cons_apostrophe (c : char) (s : str) :
  is_apostrophe c = true -> trimmed_runs U (c :: s) = trimmed_runs U s.
Proof.
  intros C. unfold trimmed_runs.
  rewrite runs_cons_class by (apply apostrophe_in_class; exact C).
  simpl. rewrite strip_cons_apostrophe by exact C.
  destruct s as [|d s]; [reflexivity|].
  destruct (in_class U d) eqn:D.
  - rewrite runs_cons_class by exact D. simpl. rewrite D. reflexivity.
  - cbn [take_while drop_while]. rewrite D. reflexivity.
Qed.

Lemma trimmed_apostrophes_app (aps s : str) :
  forallb is_apostrophe aps = true ->
  trimmed_runs U (aps ++ s) = trimmed_runs U s.
Proof.
  induction aps as [|c aps IH]; simpl; [reflexivity|].
  intros H. apply andb_true_iff in H. destruct H as [Hc Ha].
  rewrite trimmed_cons_apostrophe by exact Hc. auto.
Qed.

Lemma trimmed_cons_word (c : char) (s : str) :
  is_word U c = true ->
  trimmed_runs U (c :: s)
  = (c :: rstrip_apostrophes (take_while (in_class U) s))
    :: trimmed_runs U (drop_while (in_class U) s).
Proof.
  intros W. unfold trimmed_runs.
  rewrite runs_cons_class by (apply word_in_class; exact W).
  simpl. rewrite strip_cons_word by exact W. reflexivity.
Qed.

(** *** The matcher *)

Lemma match_more_eq (rest : str) (prev : char) :
  match_more U prev rest
  = match rstrip_apostrophes (take_while (in_class U) rest) with
    | [] => if is_word U prev then Some 0 else None
    | t => Some (length t)
    end.
Proof.
  revert prev; induction rest as [|c rest IH]; intros prev.
  - simpl. unfold boundary. simpl. rewrite xorb_false_r.
    destruct (is_word U prev); reflexivity.
  - cbn [match_more take_while]. destruct (in_class U c) eqn:E.
    + rewrite IH. cbn [rstrip_apostrophes].
      destruct (rstrip_apostrophes (take_while (in_class U) rest)) as [|d t].
      * destruct (is_word U c) eqn:W.
        -- destruct (is_apostrophe c) eqn:C; [|reflexivity].
           rewrite (apostrophe_not_word c C) in W. discriminate.
        -- rewrite (class_not_word c E W).
           unfold boundary. simpl. rewrite W, xorb_false_r.
           destruct (is_word U prev); reflexivity.
      * reflexivity.
    + simpl. unfold boundary. simpl.
      rewrite (not_class_not_word c E), xorb_false_r.
      destruct (is_word U prev); reflexivity.
Qed.

Lemma match_at_eq (prev : option char) (rest : str) :
  match_at U prev rest
  = if boundary U prev rest then
      match rstrip_apostrophes (take_while (in_class U) rest) with
      | [] => None
      | t => Some (length t)
      end
    else None.
Proof.
  unfold match_at. destruct (boundary U prev rest); [|reflexivity].
  destruct rest as [|c rest]; [reflexivity|].
  cbn [take_while]. destruct (in_class U c) eqn:E; [|reflexivity].
  rewrite match_more_eq. cbn [rstrip_apostrophes].
  destruct (rstrip_apostrophes (take_while (in_class U) rest)) as [|d t].
  - destruct (is_word U c) eqn:W.
    + destruct (is_apostrophe c) eqn:C; [|reflexivity].
      rewrite (apostrophe_not_word c C) in W. discriminate.
    + rewrite (class_not_word c E W). reflexivity.
  - reflexivity.
Qed.

(** *** [findall] emits the trimmed runs *)

Lemma firstn_length_app (A : Type) (l l' : list A) : firstn (length l) (l ++ l') = l.
Proof. induction l as [|x l IH]; simpl; [|rewrite IH]; reflexivity. Qed.

Lemma skipn_length_app (A : Type) (l l' : list A) : skipn (length l) (l ++ l') = l'.
Proof. induction l as [|x l IH]; simpl; auto. Qed.

Lemma split_at_app (A : Type) (l t r : list A) :
  l = t ++ r -> firstn (length t) l = t /\ skipn (length t) l = r.
Proof. intros ->. split; [apply firstn_length_app | apply skipn_length_app]. Qed.

Lemma take_while_app_stop (p : char -> bool) (a d : str) :
  forallb p a = true ->
  match d with [] => True | c :: _ => p c = false end ->
  take_while p (a ++ d) = a.
Proof.
  intros A D. induction a as [|x a IH]; simpl in *.
  - destruct d as [|c d]; simpl; [|rewrite D]; reflexivity.
  - apply andb_true_iff in A. destruct A as [-> A]. rewrite IH by exact A. reflexivity.
Qed.

Lemma apostrophes_in_class (aps : str) :
  forallb is_apostrophe aps = true -> forallb (in_class U) aps = true.
Proof.
  intros H. rewrite forallb_forall in *. intros c Hc.
  apply apostrophe_in_class. auto.
Qed.

Lemma findall_from_trimmed (fuel : nat) (prev : option char) (rest : str) :
  length rest < fuel -> scan_inv U prev rest ->
  findall_from U fuel prev rest = trimmed_runs U rest.
Proof.
  revert prev rest. induction fuel as [|fuel IH]; intros prev rest Hlen Hinv; [lia|].
  cbn [findall_from]. rewrite match_at_eq.
  destruct rest as [|c rest].
  - simpl. destruct (boundary U prev []); reflexivity.
  - simpl in Hlen. cbn [take_while]. destruct (in_class U c) eqn:E.
    + destruct (is_word U c) eqn:W.
      * (* a word character: a match starts here *)
        assert (P : word_opt U prev = false).
        { destruct Hinv as [P|P]; [exact P|].
          cbn [take_while] in P. rewrite E in P. simpl in P.
          apply andb_true_iff in P. destruct P as [P _].
          rewrite (apostrophe_not_word c P) in W. discriminate. }
        assert (C : is_apostrophe c = false).
        { destruct (is_apostrophe c) eqn:C; [|reflexivity].
          rewrite (apostrophe_not_word c C) in W. discriminate. }
        unfold boundary. cbn [hd_error word_opt]. rewrite P, W. cbn [xorb].
        rewrite rstrip_cons_keep by exact C.
        destruct (rstrip_split (take_while (in_class U) rest)) as (aps & Esplit & Haps).
        set (t := rstrip_apostrophes (take_while (in_class U) rest)) in *.
        assert (Erest : rest = t ++ aps ++ drop_while (in_class U) rest).
        { rewrite app_assoc, <- Esplit. symmetry. apply take_drop_while. }
        cbn [length firstn skipn].
        rewrite trimmed_cons_word by exact W. fold t.
        destruct (split_at_app _ _ Erest) as [-> ->].
        f_equal.
        rewrite IH.
        -- apply trimmed_apostrophes_app. exact Haps.
        -- apply (f_equal (@length char)) in Erest. rewrite !length_app in *. lia.
        -- right. rewrite take_while_app_stop.
           ++ exact Haps.
           ++ apply apostrophes_in_class. exact Haps.
           ++ apply drop_while_head.
      * (* an apostrophe: no match starts here *)
        assert (C : is_apostrophe c = true) by (apply class_not_word; assumption).
        assert (N : (if boundary U prev (c :: rest)
                     then match rstrip_apostrophes (c :: take_while (in_class U) rest) with
                          | [] => None
                          | t => Some (length t)
                          end
                     else None) = None).
        { destruct (boundary U prev (c :: rest)) eqn:B; [|reflexivity].
          destruct Hinv as [P|P].
          - unfold boundary in B. cbn [hd_error word_opt] in B.
            rewrite P, W in B. discriminate.
          - cbn [take_while] in P. rewrite E in P.
            rewrite (rstrip_all_apostrophes _ P). reflexivity. }
        rewrite N, trimmed_cons_apostrophe by exact C.
        apply IH; [lia|]. left. exact W.
    + (* a separator *)
      assert (N : (if boundary U prev (c :: rest)
                   then match rstrip_apostrophes [] with
                        | [] => None
                        | t => Some (length t)
                        end
                   else None) = None)
        by (destruct (boundary U prev (c :: rest)); reflexivity).
      rewrite N, trimmed_cons_sep by exact E.
      apply IH; [lia|]. left. apply not_class_not_word. exact E.
Qed.

Lemma findall_trimmed (s : str) : findall U s = trimmed_runs U s.
Proof. apply findall_from_trimmed; [simpl; lia | left; reflexivity]. Qed.

(** The steps given to the scan are enough: more of them change nothing. *)
Lemma findall_from_fuel (fuel : nat) (s : str) :
  length s < fuel -> findall_from U fuel None s = findall U s.
Proof.
  intros H. rewrite findall_trimmed.
  apply findall_from_trimmed; [exact H | left; reflexivity].
Qed.

End Tokenizer.

(** ** The shape of the tokens *)

Section TokenShape.

Variable U : UnicodeDB.

Lemma forallb_drop_while (p q : char -> bool) (s : str) :
  forallb p s = true -> forallb p (drop_while q s) = true.
Proof.
  induction s as [|c s IH]; simpl; [reflexivity|].
  intros H. destruct (q c); [|exact H].
  apply andb_true_iff in H. apply IH, H.
Qed.

Lemma rstrip_last (r : str) (d : char) :
  rstrip_apostrophes r <> [] ->
  is_apostrophe (last (rstrip_apostrophes r) d) = false.
Proof.
  induction r as [|c r IH]; cbn [rstrip_apostrophes]; [congruence|].
  destruct (rstrip_apostrophes r) as [|x t] eqn:R.
  - destruct (is_apostrophe c) eqn:C; [congruence|]. intros _. exact C.
  - intros _. change (last (c :: x :: t) d) with (last (x :: t) d).
    apply IH. discriminate.
Qed.

Lemma rstrip_hd (r : str) (d : char) :
  rstrip_apostrophes r <> [] -> hd d (rstrip_apostrophes r) = hd d r.
Proof.
  destruct r as [|c r]; cbn [rstrip_apostrophes]; [congruence|].
  destruct (rstrip_apostrophes r); [|reflexivity].
  destruct (is_apostrophe c); [congruence | reflexivity].
Qed.

Lemma rstrip_class (r : str) :
  forallb (in_class U) r = true -> forallb (in_class U) (rstrip_apostrophes r) = true.
Proof.
  intros H. destruct (rstrip_split r) as (aps & E & _).
  rewrite E, forallb_app in H. apply andb_true_iff in H. apply H.
Qed.

Lemma class_not_apostrophe (c : char) :
  in_class U c = true -> is_apostrophe c = false -> is_word U c = true.
Proof.
  unfold in_class, is_apostrophe. intros H N. rewrite N, orb_false_r in H. exact H.
Qed.

Lemma strip_shape (r : str) :
  forallb (in_class U) r = true ->
  nonempty (strip_apostrophes r) = true ->
  token_shape U (strip_apostrophes r).
Proof.
  intros Hr Hne. unfold strip_apostrophes in *.
  set (r' := drop_while is_apostrophe r) in *.
  assert (Hr' : forallb (in_class U) r' = true) by (apply forallb_drop_while, Hr).
  assert (Ne : rstrip_apostrophes r' <> [])
    by (destruct (rstrip_apostrophes r'); [discriminate | congruence]).
  pose proof (rstrip_class _ Hr') as Hc.
  split; [exact Ne|]. split; [exact Hc|]. split.
  - rewrite rstrip_hd by exact Ne.
    pose proof (drop_while_head is_apostrophe r) as Hd. fold r' in Hd.
    destruct r' as [|c r'']; [simpl in Ne; congruence|]. simpl.
    apply class_not_apostrophe; [|exact Hd].
    simpl in Hr'. apply andb_true_iff in Hr'. apply Hr'.
  - apply class_not_apostrophe; [|apply rstrip_last; exact Ne].
    rewrite forallb_forall in Hc. apply Hc.
    destruct (rstrip_apostrophes r') as [|x t] eqn:R; [congruence|].
    destruct (@exists_last _ (x :: t)) as (front & z & E); [discriminate|].
    rewrite E, last_last. apply in_or_app. right. left. reflexivity.
Qed.

Lemma runs_from_class (s cur : str) :
  forallb (in_class U) cur = true ->
  Forall (fun r => forallb (in_class U) r = true) (runs_from U cur s).
Proof.
  revert cur. induction s as [|c s IH]; intros cur H; simpl.
  - destruct cur; constructor; [exact H | constructor].
  - destruct (in_class U c) eqn:E.
    + apply IH. rewrite forallb_app, H. simpl. rewrite E. reflexivity.
    + apply Forall_app. split; [|apply IH; reflexivity].
      destruct cur; constructor; [exact H | constructor].
Qed.

Lemma trimmed_runs_shape (s : str) (t : str) :
  In t (trimmed_runs U s) ->
  token_shape U t /\ exists r, In r (runs U s) /\ t = strip_apostrophes r.
Proof.
  unfold trimmed_runs. intros H. apply filter_In in H. destruct H as [H Hne].
  apply in_map_iff in H. destruct H as (r & <- & Hr).
  split; [|exists r; split; [exact Hr | reflexivity]].
  apply strip_shape; [|exact Hne].
  pose proof (runs_from_class s [] eq_refl) as F.
  rewrite Forall_forall in F. apply F. exact Hr.
Qed.

(** A separator parts the tokens: none reaches across it. *)
Lemma runs_from_app_sep (a : str) (c : char) (b cur : str) :
  in_class U c = false ->
  runs_from U cur (a ++ c :: b) = runs_from U cur a ++ runs_from U [] b.
Proof.
  intros E. revert cur. induction a as [|x a IH]; intros cur; simpl.
  - rewrite E. reflexivity.
  - destruct (in_class U x); [apply IH|]. rewrite IH, app_assoc. reflexivity.
Qed.

Lemma findall_app_sep (a : str) (c : char) (b : str) :
  in_class U c = false ->
  findall U (a ++ c :: b) = findall U a ++ findall U b.
Proof.
  intros E. rewrite !findall_trimmed. unfold trimmed_runs, runs.
  rewrite runs_from_app_sep by exact E.
  rewrite map_app, filter_app. reflexivity.
Qed.

Lemma runs_no_class (s : str) :
  forallb (fun c => negb (in_class U c)) s = true -> runs U s = [].
Proof.
  induction s as [|c s IH]; simpl; [reflexivity|].
  intros H. apply andb_true_iff in H. destruct H as [Hc Hs].
  apply negb_true_iff in Hc. rewrite runs_cons_sep by exact Hc. apply IH, Hs.
Qed.

(** *** Spaces *)

Lemma space_ascii_lower (c : char) : ascii_isspace c = true -> ascii_lower c = c.
Proof.
  intros H. unfold ascii_lower. destruct (between 65 90 c) eqn:B; [|reflexivity].
  chars; lia.
Qed.

Lemma space_not_class (c : char) :
  spaces_not_alnum U -> isspace U c = true -> in_class U c = false.
Proof.
  intros L1. unfold isspace, in_class, is_word.
  destruct (is_ascii c) eqn:A; intros H.
  - destruct (ascii_isalnum c || char_eqb c 95%N || char_eqb c APOSTROPHE) eqn:X;
      [exfalso | reflexivity].
    chars; lia.
  - rewrite (L1 c H). apply N.eqb_neq. chars. lia.
Qed.

Lemma lower_spaces (s : str) :
  spaces_lower_to_themselves U -> forallb (isspace U) s = true -> lower U s = s.
Proof.
  intros L2 H. unfold lower. destruct (forallb is_ascii s) eqn:A; [|apply L2, H].
  induction s as [|c s IH]; simpl in *; [reflexivity|].
  apply andb_true_iff in H, A. destruct H as [Hc Hs], A as [Ac As].
  rewrite IH by assumption. f_equal. apply space_ascii_lower.
  unfold isspace in Hc. rewrite Ac in Hc. exact Hc.
Qed.

Lemma tokenize_spaces (s : str) :
  spaces_not_alnum U -> spaces_lower_to_themselves U ->
  forallb (isspace U) s = true -> _tokenize U s = [].
Proof.
  intros L1 L2 H. unfold _tokenize. rewrite lower_spaces by assumption.
  rewrite findall_trimmed. unfold trimmed_runs. rewrite runs_no_class; [reflexivity|].
  rewrite forallb_forall in *. intros c Hc. apply negb_true_iff.
  apply space_not_class; auto.
Qed.

Lemma drop_while_all (p : char -> bool) (s : str) :
  forallb p s = true <-> drop_while p s = [].
Proof.
  induction s as [|c s IH]; simpl; [tauto|].
  destruct (p c); simpl; [exact IH|]. split; discriminate.
Qed.

Lemma blank_spaces (text : str) :
  blank U text = true <-> forallb (isspace U) text = true.
Proof.
  unfold blank, strip. destruct text as [|c text]; [simpl; tauto|].
  set (s := c :: text). split.
  - intros H.
    destruct (rev (drop_while (isspace U) (rev (drop_while (isspace U) s)))) eqn:E;
      [|discriminate].
    apply (f_equal (@rev char)) in E. rewrite rev_involutive in E.
    change (rev []) with (@nil char) in E. apply drop_while_all in E.
    pose proof (drop_while_head (isspace U) s) as Hd.
    destruct (drop_while (isspace U) s) as [|x r] eqn:D.
    + apply drop_while_all. exact D.
    + cbn [rev] in E. rewrite forallb_app in E. apply andb_true_iff in E.
      destruct E as [_ E]. simpl in E. rewrite Hd in E. discriminate.
  - intros H. apply drop_while_all in H. rewrite H. reflexivity.
Qed.

End TokenShape.

(** ** [str.find] *)

Section Find.

Variable sub : str.

Lemma starts_with_firstn (s : str) :
  starts_with sub s = true ->
  firstn (length sub) s = sub /\ length sub <= length s.
Proof.
  revert s. induction sub as [|x sub' IH]; intros s; simpl.
  - intros _. split; [reflexivity | lia].
  - destruct s as [|y s]; [discriminate|].
    intros H. apply andb_true_iff in H. destruct H as [E H].
    apply N.eqb_eq in E. subst y. destruct (IH s H) as [-> L].
    split; [reflexivity | simpl; lia].
Qed.

Lemma starts_with_app (r : str) : starts_with sub (sub ++ r) = true.
Proof.
  induction sub as [|x sub' IH]; simpl; [reflexivity|].
  unfold char_eqb. rewrite N.eqb_refl. exact IH.
Qed.

Lemma find_in_Some (s : str) (k : nat) :
  find_in sub s = Some k ->
  starts_with sub (skipn k s) = true
  /\ k + length sub <= length s
  /\ forall j, j < k -> starts_with sub (skipn j s) = false.
Proof.
  revert k. induction s as [|c s IH]; intros k; cbn [find_in].
  - destruct (starts_with sub []) eqn:E; [|discriminate].
    intros [= <-]. simpl. rewrite E. destruct (starts_with_firstn _ E) as [_ L].
    split; [reflexivity|]. split; [exact L | intros j Hj; lia].
  - destruct (starts_with sub (c :: s)) eqn:E.
    + intros [= <-]. simpl skipn. rewrite E.
      destruct (starts_with_firstn _ E) as [_ L].
      split; [reflexivity|]. split; [exact L | intros j Hj; lia].
    + destruct (find_in sub s) as [k'|] eqn:F; [|discriminate].
      intros [= <-]. destruct (IH k' eq_refl) as (A & B & C).
      split; [exact A|]. split; [simpl; lia|].
      intros [|j] Hj; [exact E|]. simpl. apply C. lia.
Qed.

Lemma find_in_None (s : str) :
  find_in sub s = None -> forall j, starts_with sub (skipn j s) = false.
Proof.
  induction s as [|c s IH]; cbn [find_in].
  - destruct (starts_with sub []) eqn:E; [discriminate|].
    intros _ j. rewrite skipn_nil. exact E.
  - destruct (starts_with sub (c :: s)) eqn:E; [discriminate|].
    destruct (find_in sub s) eqn:F; [discriminate|].
    intros _ [|j]; [exact E|]. simpl. apply IH. reflexivity.
Qed.

(** What [find] returns is an occurrence at or after [start], and the first. *)
Lemma find_Some (s : str) (start idx : nat) :
  find s sub start = Some idx ->
  start <= idx
  /\ idx + length sub <= length s
  /\ starts_with sub (skipn idx s) = true
  /\ forall j, start <= j < idx -> starts_with sub (skipn j s) = false.
Proof.
  unfold find. destruct (length s <? start) eqn:L; [discriminate|].
  apply Nat.ltb_ge in L.
  destruct (find_in sub (skipn start s)) as [k|] eqn:F; [|discriminate].
  intros [= <-]. destruct (find_in_Some _ F) as (A & B & C).
  rewrite skipn_skipn in A. rewrite length_skipn in B.
  split; [lia|]. split; [lia|]. split.
  - rewrite Nat.add_comm. exact A.
  - intros j Hj. specialize (C (j - start)). rewrite skipn_skipn in C.
    replace (j - start + start) with j in C by lia. apply C. lia.
Qed.

Lemma find_None (s : str) (start : nat) :
  sub <> [] -> find s sub start = None ->
  forall j, start <= j -> starts_with sub (skipn j s) = false.
Proof.
  intros Hne. unfold find. destruct (length s <? start) eqn:L.
  - apply Nat.ltb_lt in L. intros _ j Hj.
    rewrite skipn_all2 by lia. destruct sub; [contradiction | reflexivity].
  - destruct (find_in sub (skipn start s)) eqn:F; [discriminate|].
    intros _ j Hj. pose proof (find_in_None _ F (j - start)) as C.
    rewrite skipn_skipn in C. replace (j - start + start) with j in C by lia.
    exact C.
Qed.

(** [find] reads the text from [start] on only. *)
Lemma find_ext (s s' : str) (start : nat) :
  length s = length s' -> skipn start s = skipn start s' ->
  find s sub start = find s' sub start.
Proof. unfold find. intros -> ->. reflexivity. Qed.

End Find.

(** ** Masking *)

Lemma mask_at_length (t : str) (idx len : nat) :
  idx + len <= length t -> length (mask_at t idx len) = length t.
Proof.
  intros H. unfold mask_at.
  rewrite !length_app, length_firstn, repeat_length, length_skipn. lia.
Qed.

Lemma mask_at_skipn (t : str) (idx len n : nat) :
  idx + len <= length t -> idx + len <= n ->
  skipn n (mask_at t idx len) = skipn n t.
Proof.
  intros H Hn. unfold mask_at. rewrite app_assoc, skipn_app.
  rewrite skipn_all2 by (rewrite length_app, length_firstn, repeat_length; lia).
  rewrite length_app, length_firstn, repeat_length, skipn_skipn. simpl.
  f_equal. lia.
Qed.

Lemma mask_at_nth_error (t : str) (idx len p : nat) :
  idx + len <= length t ->
  nth_error (mask_at t idx len) p
  = if (idx <=? p) && (p <? idx + len) then Some SPACE else nth_error t p.
Proof.
  intros H. unfold mask_at.
  assert (Lf : length (firstn idx t) = idx) by (rewrite length_firstn; lia).
  destruct (idx <=? p) eqn:A; simpl.
  - apply Nat.leb_le in A. rewrite nth_error_app2 by lia. rewrite Lf.
    destruct (p <? idx + len) eqn:B.
    + apply Nat.ltb_lt in B. rewrite nth_error_app1 by (rewrite repeat_length; lia).
      apply nth_error_repeat. lia.
    + apply Nat.ltb_ge in B. rewrite nth_error_app2 by (rewrite repeat_length; lia).
      rewrite repeat_length, nth_error_skipn. f_equal. lia.
  - apply Nat.leb_gt in A. rewrite nth_error_app1 by lia.
    rewrite nth_error_firstn.
    destruct (p <? idx) eqn:B; [reflexivity|]. apply Nat.ltb_ge in B. lia.
Qed.

Section Masking.

Variables (phrase : str) (phrase_weight : Z).
Hypothesis phrase_nonempty : phrase <> [].

Lemma phrase_length_pos : 0 < length phrase.
Proof. destruct phrase; [contradiction | simpl; lia]. Qed.

(** The loop of one phrase ends, having added the weight once for each
    offset it found and masked the text at each. *)
Lemma mask_loop_hits (fuel : nat) (cur text : str) (start : nat) (score0 : Z) :
  length cur = length text -> skipn start cur = skipn start text ->
  length text - start < fuel ->
  mask_loop fuel phrase phrase_weight cur start score0
  = Some ((score0
           + phrase_weight * Z.of_nat (length (hits_from fuel text phrase start)))%Z,
          mask_all cur (length phrase) (hits_from fuel text phrase start)).
Proof.
  pose proof phrase_length_pos as Hpos.
  revert cur start score0.
  induction fuel as [|fuel IH]; intros cur start score0 Hlen Hskip Hfuel; [lia|].
  cbn [mask_loop hits_from]. rewrite (find_ext phrase cur text start Hlen Hskip).
  destruct (find text phrase start) as [idx|] eqn:F.
  - destruct (find_Some _ _ _ F) as (A & B & _).
    rewrite IH.
    + cbn [length mask_all fold_left]. f_equal. f_equal.
      rewrite Nat2Z.inj_succ. lia.
    + rewrite mask_at_length; lia.
    + rewrite mask_at_skipn by lia.
      replace (idx + length phrase) with (idx + length phrase - start + start) by lia.
      rewrite <- !skipn_skipn, Hskip. reflexivity.
    + lia.
  - cbn [length mask_all fold_left]. f_equal. f_equal. lia.
Qed.

(** The offsets are those of the repeated search, to its end. *)
Lemma hits_from_scan (fuel : nat) (text : str) (start : nat) :
  length text - start < fuel ->
  scan_hits text phrase start (hits_from fuel text phrase start).
Proof.
  pose proof phrase_length_pos as Hpos.
  revert start. induction fuel as [|fuel IH]; intros start Hfuel; [lia|].
  cbn [hits_from]. destruct (find text phrase start) as [idx|] eqn:F.
  - destruct (find_Some _ _ _ F) as (A & B & _).
    apply scan_hit; [exact F|]. apply IH. lia.
  - apply scan_done. exact F.
Qed.

(** Each offset found is an occurrence of the phrase in the text, at or
    after the place its search started at, and the first from there. *)
Lemma scan_hits_occurrences (text : str) (start : nat) (offsets : list nat) :
  scan_hits text phrase start offsets ->
  Forall (fun h => start <= h
                   /\ h + length phrase <= length text
                   /\ slice text h (h + length phrase) = phrase) offsets.
Proof.
  induction 1 as [start F|start idx offsets F _ IH]; constructor.
  - destruct (find_Some _ _ _ F) as (A & B & C & _).
    split; [exact A|]. split; [exact B|].
    unfold slice. replace (idx + length phrase - idx) with (length phrase) by lia.
    apply starts_with_firstn. exact C.
  - eapply Forall_impl; [|exact IH]. simpl.
    destruct (find_Some _ _ _ F) as (A & _).
    intros h (X & Y & Z). split; [lia|]. split; assumption.
Qed.

Lemma mask_all_length (text : str) (offsets : list nat) :
  Forall (fun h => h + length phrase <= length text) offsets ->
  length (mask_all text (length phrase) offsets) = length text.
Proof.
  revert text. induction offsets as [|h offsets IH]; intros text H; [reflexivity|].
  inversion H as [|? ? Hh Hrest]; subst. cbn [mask_all fold_left].
  fold (mask_all (mask_at text h (length phrase)) (length phrase) offsets).
  rewrite IH; rewrite mask_at_length by exact Hh; [reflexivity | exact Hrest].
Qed.

(** The masked text: a space at every position of a masked span, and the
    character of the text everywhere else. *)
Lemma mask_all_nth_error (text : str) (offsets : list nat) (p : nat) :
  Forall (fun h => h + length phrase <= length text) offsets ->
  nth_error (mask_all text (length phrase) offsets) p
  = if covered offsets (length phrase) p then Some SPACE else nth_error text p.
Proof.
  revert text. induction offsets as [|h offsets IH]; intros text H; [reflexivity|].
  inversion H as [|? ? Hh Hrest]; subst. cbn [mask_all fold_left covered existsb].
  fold (mask_all (mask_at text h (length phrase)) (length phrase) offsets).
  fold (covered offsets (length phrase) p).
  rewrite IH by (rewrite mask_at_length by exact Hh; exact Hrest).
  rewrite mask_at_nth_error by exact Hh.
  destruct (covered offsets (length phrase) p);
    destruct ((h <=? p) && (p <? h + length phrase)); reflexivity.
Qed.

End Masking.

(** ** The token scan *)

(** The fields of a state that is written out. *)
Ltac proj := cbn [score negate_window after_but] in *.

Section Scan.

Variable L : Lexicon.

Lemma scan_cons (st : scan_state) (token : str) (tokens : list str) :
  scan L st (token :: tokens) = scan L (step L st token) tokens.
Proof. reflexivity. Qed.

Lemma step_window_flag (st st' : scan_state) (token : str) :
  negate_window st = negate_window st' -> after_but st = after_but st' ->
  negate_window (step L st token) = negate_window (step L st' token)
  /\ after_but (step L st token) = after_but (step L st' token)
  /\ (score (step L st token) - score st = score (step L st' token) - score st')%Z.
Proof.
  intros W B. unfold step, word_delta. rewrite W, B.
  destruct (str_eqb token BUT); [proj; repeat split; lia|].
  destruct (mem token (NEGATIONS L)); [proj; repeat split; lia|].
  proj. repeat split. destruct (base_delta L token =? 0)%Z; lia.
Qed.

(** The score a scan starts from is carried through it unchanged. *)
Lemma scan_score_from (tokens : list str) (st st' : scan_state) :
  negate_window st = negate_window st' -> after_but st = after_but st' ->
  (score (scan L st tokens) - score st
   = score (scan L st' tokens) - score st')%Z.
Proof.
  revert st st'. induction tokens as [|t tokens IH]; intros st st' W B.
  - simpl. lia.
  - rewrite !scan_cons. destruct (step_window_flag st st' t W B) as (W' & B' & S').
    specialize (IH _ _ W' B'). lia.
Qed.

Lemma step_flag_sticky (st : scan_state) (token : str) :
  after_but st = true -> after_but (step L st token) = true.
Proof.
  unfold step. intros B.
  destruct (str_eqb token BUT); [reflexivity|].
  destruct (mem token (NEGATIONS L)); exact B.
Qed.

Lemma scan_flag_sticky (tokens : list str) (st : scan_state) :
  after_but st = true -> after_but (scan L st tokens) = true.
Proof.
  revert st. induction tokens as [|t tokens IH]; intros st B; [exact B|].
  rewrite scan_cons. apply IH, step_flag_sticky, B.
Qed.

(** With the flag up, a token adds twice what it adds with the flag down. *)
Lemma step_doubled (st : scan_state) (token : str) :
  after_but st = true ->
  (score (step L st token) - score st
   = 2 * (score (step L (unemphasized st (score st)) token) - score st))%Z.
Proof.
  unfold step, word_delta, unemphasized. intros ->. proj.
  destruct (str_eqb token BUT); [proj; lia|].
  destruct (mem token (NEGATIONS L)); [proj; lia|].
  proj. destruct (base_delta L token =? 0)%Z; [lia|].
  destruct (negate_window st >? 0)%Z; lia.
Qed.

Lemma step_window_indep (st st' : scan_state) (token : str) :
  negate_window st = negate_window st' ->
  negate_window (step L st token) = negate_window (step L st' token).
Proof.
  intros W. unfold step. rewrite W.
  destruct (str_eqb token BUT); [reflexivity|].
  destruct (mem token (NEGATIONS L)); reflexivity.
Qed.

Lemma step_flag_down (st : scan_state) (token : str) :
  str_eqb token BUT = false -> after_but st = false ->
  after_but (step L st token) = false.
Proof.
  intros E B. unfold step. rewrite E.
  destruct (mem token (NEGATIONS L)); exact B.
Qed.

(** The whole rest of a scan with the flag up: twice the score of the same
    tokens, the conjunctions left out, scanned with the flag down. *)
Lemma scan_doubled (tokens : list str) (st : scan_state) :
  after_but st = true ->
  (score (scan L st tokens)
   = score st
     + 2 * score (scan L (unemphasized st 0)
                    (filter (fun t => negb (is_but t)) tokens)))%Z.
Proof.
  revert st. induction tokens as [|t tokens IH]; intros st B.
  - cbn [scan fold_left filter]. unfold unemphasized. proj. lia.
  - rewrite scan_cons, IH by (apply step_flag_sticky; exact B).
    cbn [filter]. replace (is_but t) with (str_eqb t BUT) by reflexivity.
    destruct (str_eqb t BUT) eqn:E; cbn [negb].
    + replace (unemphasized (step L st t) 0) with (unemphasized st 0)
        by (unfold step; rewrite E; reflexivity).
      unfold step. rewrite E. proj. lia.
    + rewrite (scan_cons (unemphasized st 0) t).
      set (toks := filter (fun t => negb (is_but t)) tokens).
      pose proof (step_doubled st t B) as D.
      pose proof (step_window_flag (unemphasized st (score st)) (unemphasized st 0) t
                    eq_refl eq_refl) as (_ & _ & S1).
      assert (S2 := @scan_score_from toks (unemphasized (step L st t) 0)
                      (step L (unemphasized st 0) t)
                      (step_window_indep st (unemphasized st 0) t eq_refl)
                      (eq_sym (step_flag_down (unemphasized st 0) t E eq_refl))).
      unfold unemphasized in *. proj. lia.
Qed.

End Scan.

(** ** Occurrences in order *)

Section Occurrences.

Variable phrase : str.
Hypothesis phrase_nonempty : phrase <> [].

(** The offsets found go up, each at least a phrase's length after the one
    before: the spans masked do not overlap, and no offset is found twice. *)
Lemma scan_hits_sorted (text : str) (start : nat) (offsets : list nat) :
  scan_hits text phrase start offsets ->
  StronglySorted (fun a b => a + length phrase <= b) offsets.
Proof.
  induction 1 as [start F|start idx offsets F H IH]; constructor; [exact IH|].
  eapply Forall_impl; [|exact (scan_hits_occurrences H)].
  simpl. intros h (A & _). exact A.
Qed.

Lemma starts_with_split (s : str) :
  starts_with phrase s = true -> s = phrase ++ skipn (length phrase) s.
Proof.
  intros H. destruct (starts_with_firstn _ _ H) as [E _].
  pose proof (firstn_skipn (length phrase) s) as S. rewrite E in S.
  symmetry. exact S.
Qed.

Lemma starts_with_prefix (a p r : str) :
  starts_with p (a ++ r) = true -> length a <= length p -> starts_with a p = true.
Proof.
  revert p. induction a as [|x a IH]; intros p; [reflexivity|].
  destruct p as [|y p]; simpl; [lia|]. intros H L.
  apply andb_true_iff in H. destruct H as [E H].
  apply N.eqb_eq in E. subst y. unfold char_eqb. rewrite N.eqb_refl. simpl.
  apply IH; [exact H | lia].
Qed.

(** Two occurrences that overlap make an end of the phrase a start of it. *)
Lemma overlap_border (text : str) (i d : nat) :
  starts_with phrase (skipn i text) = true ->
  starts_with phrase (skipn (d + i) text) = true ->
  d < length phrase ->
  starts_with (skipn d phrase) phrase = true.
Proof.
  intros Hi Hj Hd. rewrite <- skipn_skipn in Hj.
  rewrite (starts_with_split _ Hi), skipn_app in Hj.
  apply starts_with_prefix in Hj; [exact Hj|]. rewrite length_skipn. lia.
Qed.

Hypothesis phrase_unbordered : unbordered phrase = true.

(** Every occurrence of the phrase from [start] on is one of the offsets. *)
Lemma scan_hits_complete (text : str) (start : nat) (offsets : list nat) (j : nat) :
  scan_hits text phrase start offsets ->
  start <= j -> starts_with phrase (skipn j text) = true -> In j offsets.
Proof.
  intros H. revert j. induction H as [start F|start idx offsets F H IH]; intros j Hj Occ.
  - rewrite (@find_None phrase text start phrase_nonempty F j Hj) in Occ. discriminate.
  - destruct (find_Some _ _ _ F) as (A & B & C & D).
    destruct (Nat.lt_ge_cases j idx) as [Lt|Ge].
    { rewrite (D j (conj Hj Lt)) in Occ. discriminate. }
    destruct (Nat.eq_dec j idx) as [->|Ne]; [left; reflexivity|].
    right. apply IH; [|exact Occ].
    destruct (Nat.lt_ge_cases j (idx + length phrase)) as [Lt|Ge']; [exfalso|exact Ge'].
    assert (Bd : starts_with (skipn (j - idx) phrase) phrase = true).
    { apply (overlap_border text idx); [exact C| |lia].
      replace (j - idx + idx) with j by lia. exact Occ. }
    unfold unbordered in phrase_unbordered. rewrite forallb_forall in phrase_unbordered.
    specialize (phrase_unbordered (j - idx)). rewrite Bd in phrase_unbordered.
    assert (In (j - idx) (seq 1 (length phrase - 1))) by (apply in_seq; lia).
    specialize (phrase_unbordered H0). discriminate.
Qed.

End Occurrences.

(** ** The module's tables *)

Lemma but_not_negation : mem BUT (NEGATIONS lexicon) = false.
Proof. reflexivity. Qed.

Lemma positive_words_checked :
  forallb (fun t => ordinary lexicon t && negb (mem t (NEGATIVE_WORDS lexicon)))
          (POSITIVE_WORDS lexicon) = true.
Proof. vm_compute. reflexivity. Qed.

Lemma negative_words_checked :
  forallb (fun t => ordinary lexicon t && negb (mem t (POSITIVE_WORDS lexicon)))
          (NEGATIVE_WORDS lexicon) = true.
Proof. vm_compute. reflexivity. Qed.

(** A positive word is no negative word, no negation marker and not "but". *)
Lemma positive_word (token : str) :
  mem token (POSITIVE_WORDS lexicon) = true ->
  str_eqb token BUT = false
  /\ mem token (NEGATIONS lexicon) = false
  /\ mem token (NEGATIVE_WORDS lexicon) = false.
Proof.
  intros H. apply mem_In in H.
  pose proof (proj1 (forallb_forall _ _) positive_words_checked token H) as C.
  unfold ordinary, is_but in C.
  repeat (apply andb_true_iff in C; destruct C as [C ?]).
  repeat split; apply negb_true_iff; assumption.
Qed.

Lemma negative_word (token : str) :
  mem token (NEGATIVE_WORDS lexicon) = true ->
  str_eqb token BUT = false
  /\ mem token (NEGATIONS lexicon) = false
  /\ mem token (POSITIVE_WORDS lexicon) = false.
Proof.
  intros H. apply mem_In in H.
  pose proof (proj1 (forallb_forall _ _) negative_words_checked token H) as C.
  unfold ordinary, is_but in C.
  repeat (apply andb_true_iff in C; destruct C as [C ?]).
  repeat split; apply negb_true_iff; assumption.
Qed.

Lemma negation_not_but (token : str) :
  mem token (NEGATIONS lexicon) = true -> str_eqb token BUT = false.
Proof.
  intros H. destruct (str_eqb token BUT) eqn:E; [|reflexivity].
  apply str_eqb_eq in E. subst token. rewrite but_not_negation in H. discriminate.
Qed.

(** ** Scans with no marker and no conjunction *)

Lemma count_in_cons (words : list str) (t : str) (tokens : list str) :
  count_in words (t :: tokens)
  = ((if mem t words then 1 else 0) + count_in words tokens)%Z.
Proof.
  unfold count_in. cbn [filter]. destruct (mem t words); [|lia].
  cbn [length]. rewrite Nat2Z.inj_succ. lia.
Qed.

Lemma base_delta_counts (t : str) :
  base_delta lexicon t
  = ((if mem t (POSITIVE_WORDS lexicon) then 1 else 0)
     - (if mem t (NEGATIVE_WORDS lexicon) then 1 else 0))%Z.
Proof.
  unfold base_delta. destruct (mem t (POSITIVE_WORDS lexicon)) eqn:P.
  - destruct (positive_word t P) as (_ & _ & ->). reflexivity.
  - destruct (mem t (NEGATIVE_WORDS lexicon)); reflexivity.
Qed.

Lemma scan_plain (tokens : list str) (st : scan_state) :
  (forall t, In t tokens -> ordinary lexicon t = true) ->
  negate_window st = 0%Z -> after_but st = false ->
  score (scan lexicon st tokens)
  = (score st + count_in (POSITIVE_WORDS lexicon) tokens
     - count_in (NEGATIVE_WORDS lexicon) tokens)%Z.
Proof.
  revert st. induction tokens as [|t tokens IH]; intros st Hord W B.
  - unfold count_in. simpl. lia.
  - rewrite scan_cons, IH.
    + rewrite !count_in_cons.
      pose proof (Hord t (or_introl eq_refl)) as O. unfold ordinary, is_but in O.
      apply andb_true_iff in O. destruct O as [Ob On].
      apply negb_true_iff in Ob, On.
      unfold step, word_delta. rewrite Ob, On, W, B. proj.
      rewrite base_delta_counts.
      destruct (mem t (POSITIVE_WORDS lexicon)), (mem t (NEGATIVE_WORDS lexicon));
        repeat match goal with
          | |- context [(?a =? ?b)%Z] => destruct (Z.eqb_spec a b)
          | |- context [(?a >? ?b)%Z] => destruct (Z.gtb_spec a b)
          end; lia.
    + intros t' H. apply Hord. right. exact H.
    + pose proof (Hord t (or_introl eq_refl)) as O. unfold ordinary, is_but in O.
      apply andb_true_iff in O. destruct O as [Ob On].
      apply negb_true_iff in Ob, On.
      unfold step. rewrite Ob, On, W. reflexivity.
    + pose proof (Hord t (or_introl eq_refl)) as O. unfold ordinary, is_but in O.
      apply andb_true_iff in O. destruct O as [Ob _]. apply negb_true_iff in Ob.
      apply step_flag_down; assumption.
Qed.

(** * The claims *)

(** C2: a negation marker adds nothing to the score and sets the window to
    3, whatever the window was, and does not count itself down; every token
    after it that is neither "but" nor a negation marker takes exactly one off
    an active window, whatever its polarity. *)
Theorem negation_marker_window (st : scan_state) (token : str) :
  (mem token (NEGATIONS lexicon) = true ->
   step lexicon st token
   = {| score := score st; negate_window := 3; after_but := after_but st |})
  /\ (ordinary lexicon token = true ->
      ((0 < negate_window st)%Z ->
       negate_window (step lexicon st token) = (negate_window st - 1)%Z)
      /\ ((negate_window st <= 0)%Z ->
          negate_window (step lexicon st token) = negate_window st)).
Proof.
  split.
  - intros H. unfold step. rewrite (negation_not_but token H), H. reflexivity.
  - unfold ordinary, is_but. intros H.
    apply andb_true_iff in H. destruct H as [B N].
    apply negb_true_iff in B, N. unfold step. rewrite B, N. proj.
    split; intros W.
    + destruct (negate_window st >? 0)%Z eqn:G; [reflexivity|]. lia.
    + destruct (negate_window st >? 0)%Z eqn:G; [lia | reflexivity].
Qed.

Lemma negation_marker_window_witness :
  step lexicon {| score := 5; negate_window := 1; after_but := true |} (str_of "not")
  = {| score := 5; negate_window := 3; after_but := true |}
  /\ negate_window
       (step lexicon {| score := 0; negate_window := 3; after_but := false |}
             (str_of "that")) = 2%Z.
Proof.
  split.
  - exact (proj1 (negation_marker_window
                    {| score := 5; negate_window := 1; after_but := true |}
                    (str_of "not")) eq_refl).
  - exact (proj1 (proj2 (negation_marker_window
                           {| score := 0; negate_window := 3; after_but := false |}
                           (str_of "that")) eq_refl) eq_refl).
Defined.

(** C3: "but" adds nothing to the score and leaves the negation window as it
    is; once it has been seen the flag stays up to the end of the scan, and
    every later token adds twice what it adds with the flag down: a positive
    word 2 and a negative word -2 where it would add 1 and -1, and over the
    rest of a scan with no negation twice the positive words less the
    negative ones, however many more times "but" comes. *)
Theorem conjunction_emphasis (st : scan_state) (pre post : list str) (token : str) :
  let seen := scan lexicon st pre in
  let rest := filter (fun t => negb (is_but t)) post in
  step lexicon seen BUT
  = {| score := score seen; negate_window := negate_window seen; after_but := true |}
  /\ after_but (scan lexicon st (pre ++ BUT :: post)) = true
  /\ (score (scan lexicon st (pre ++ BUT :: post))
      = score seen + 2 * score (scan lexicon (unemphasized seen 0) rest))%Z
  /\ (after_but st = true ->
      after_but (step lexicon st token) = true
      /\ (score (step lexicon st token) - score st
          = 2 * (score (step lexicon (unemphasized st (score st)) token)
                 - score st))%Z)
  /\ (forall d,
        word_delta st d
        = ((if after_but st then 2 else 1)
           * (if (negate_window st >? 0)%Z then d * -1 else d))%Z)
  /\ ((negate_window st <= 0)%Z ->
      (mem token (POSITIVE_WORDS lexicon) = true ->
       score (step lexicon st token)
       = (score st + (if after_but st then 2 else 1))%Z)
      /\ (mem token (NEGATIVE_WORDS lexicon) = true ->
          score (step lexicon st token)
          = (score st - (if after_but st then 2 else 1))%Z))
  /\ (negate_window seen = 0%Z ->
      (forall t, In t post -> mem t (NEGATIONS lexicon) = false) ->
      score (scan lexicon st (pre ++ BUT :: post))
      = (score seen
         + 2 * (count_in (POSITIVE_WORDS lexicon) rest
                - count_in (NEGATIVE_WORDS lexicon) rest))%Z)
  /\ (score (scan lexicon (start_state 0) (map str_of ["good"; "but"; "bad"]%string))
      = (-1)%Z
      /\ score (scan lexicon (start_state 0)
                  (map str_of ["the"; "food"; "is"; "delicious"; "but"; "the";
                               "service"; "was"; "bad"]%string)) = (-1)%Z
      /\ score (scan lexicon (start_state 0)
                  (map str_of ["but"; "good"; "but"; "good"]%string)) = 4%Z).
Proof.
  intros seen rest.
  assert (E : step lexicon seen BUT
              = {| score := score seen; negate_window := negate_window seen;
                   after_but := true |}) by reflexivity.
  split; [exact E|].
  assert (S : scan lexicon st (pre ++ BUT :: post)
              = scan lexicon (step lexicon seen BUT) post).
  { unfold scan. rewrite fold_left_app. reflexivity. }
  assert (D : (score (scan lexicon st (pre ++ BUT :: post))
               = score seen + 2 * score (scan lexicon (unemphasized seen 0) rest))%Z).
  { rewrite S, scan_doubled by (rewrite E; reflexivity). rewrite E. reflexivity. }
  split; [rewrite S; apply scan_flag_sticky; rewrite E; reflexivity|].
  split; [exact D|].
  split; [intros B; split; [apply step_flag_sticky | apply step_doubled]; exact B|].
  assert (W : forall d,
             word_delta st d
             = ((if after_but st then 2 else 1)
                * (if (negate_window st >? 0)%Z then d * -1 else d))%Z).
  { intros d. unfold word_delta.
    destruct (after_but st); destruct (negate_window st >? 0)%Z; lia. }
  split; [exact W|].
  split.
  { intros Wz.
    assert (G : (negate_window st >? 0)%Z = false)
      by (destruct (Z.gtb_spec (negate_window st) 0); [lia | reflexivity]).
    split; intros H.
    - destruct (positive_word token H) as (Eb & En & _).
      unfold step, base_delta. rewrite Eb, En, H. proj. rewrite W, G.
      destruct (after_but st); reflexivity.
    - destruct (negative_word token H) as (Eb & En & Ep).
      unfold step, base_delta. rewrite Eb, En, Ep, H. proj. rewrite W, G.
      destruct (after_but st); reflexivity. }
  split.
  { intros Wz Hneg. rewrite D. rewrite scan_plain.
    - unfold unemphasized. proj. lia.
    - intros t Ht. apply filter_In in Ht. destruct Ht as [Ht Hb].
      unfold ordinary. rewrite Hb, (Hneg t Ht). reflexivity.
    - exact Wz.
    - reflexivity. }
  repeat split; vm_compute; reflexivity.
Qed.

Lemma conjunction_emphasis_witness :
  score (step lexicon {| score := 1; negate_window := 0; after_but := true |}
              (str_of "bad")) = (-1)%Z
  /\ score (scan lexicon (start_state 0)
              (map str_of ["good"; "but"; "but"; "nice"; "bad"; "great"]%string))
     = 3%Z.
Proof.
  split.
  - exact (proj2 (proj1 (proj2 (proj2 (proj2 (proj2 (proj2
      (conjunction_emphasis {| score := 1; negate_window := 0; after_but := true |}
         [] [] (str_of "bad")))))))
      ltac:(cbn; lia)) eq_refl).
  - refine (proj1 (proj2 (proj2 (proj2 (proj2 (proj2 (proj2
      (conjunction_emphasis (start_state 0) [str_of "good"]
         (map str_of ["but"; "nice"; "bad"; "great"]%string) [])))))))
      eq_refl _).
    intros t H. repeat (destruct H as [<-|H]; [reflexivity|]). destruct H.
Defined.

(** C4: under an active negation window and after "but" the sign is flipped
    and then the result is doubled: a positive word adds -2 to the score and
    a negative word +2. *)
Theorem flip_then_double (st : scan_state) (token : str) :
  (0 < negate_window st)%Z -> after_but st = true ->
  (forall d, word_delta st d = ((d * -1) * 2)%Z)
  /\ (mem token (POSITIVE_WORDS lexicon) = true ->
      score (step lexicon st token) = (score st - 2)%Z)
  /\ (mem token (NEGATIVE_WORDS lexicon) = true ->
      score (step lexicon st token) = (score st + 2)%Z).
Proof.
  intros W B.
  assert (D : forall d, word_delta st d = ((d * -1) * 2)%Z).
  { intros d. unfold word_delta. rewrite B.
    destruct (negate_window st >? 0)%Z eqn:G; [reflexivity | lia]. }
  split; [exact D|]. split; intros H.
  - destruct (positive_word token H) as (Eb & En & _).
    unfold step, base_delta. rewrite Eb, En, H. proj. rewrite D. reflexivity.
  - destruct (negative_word token H) as (Eb & En & Ep).
    unfold step, base_delta. rewrite Eb, En, Ep, H. proj. rewrite D. reflexivity.
Qed.

Lemma flip_then_double_witness :
  score (step lexicon {| score := 0; negate_window := 2; after_but := true |}
              (str_of "good")) = (-2)%Z
  /\ score (step lexicon {| score := 0; negate_window := 2; after_but := true |}
                 (str_of "bad")) = 2%Z.
Proof.
  pose (st := {| score := 0; negate_window := 2; after_but := true |}).
  split.
  - exact (proj1 (proj2 (flip_then_double st (str_of "good") eq_refl eq_refl)) eq_refl).
  - exact (proj2 (proj2 (flip_then_double st (str_of "bad") eq_refl eq_refl)) eq_refl).
Defined.

(** ** The phrase loop of the module *)

Lemma good_taste_nonempty : GOOD_TASTE <> [].
Proof. discriminate. Qed.

Lemma good_taste_unbordered : unbordered GOOD_TASTE = true.
Proof. vm_compute. reflexivity. Qed.

Section Claims.

Variable U : UnicodeDB.

Lemma mask_phrases_good_taste (wt : str) :
  mask_phrases [(GOOD_TASTE, (-2)%Z)] wt 0
  = Some ((-2 * Z.of_nat (length (hits wt GOOD_TASTE)))%Z,
          mask_all wt (length GOOD_TASTE) (hits wt GOOD_TASTE)).
Proof.
  cbn [mask_phrases].
  rewrite (@mask_loop_hits GOOD_TASTE (-2)%Z good_taste_nonempty
             (S (length wt)) wt wt 0 0%Z eq_refl eq_refl) by lia.
  reflexivity.
Qed.

(** The score of a text: the weight of the phrase for each offset found, and
    what the scan of the masked text adds. *)
Lemma final_score_good_taste (L : Lexicon) (text : str) :
  PHRASE_SENTIMENT L = [(GOOD_TASTE, (-2)%Z)] ->
  final_score U L text
  = Some (-2 * Z.of_nat (length (hits (lower U text) GOOD_TASTE))
          + score (scan L (start_state 0) (_tokenize U (masked_text U text))))%Z.
Proof.
  intros E. unfold final_score. rewrite E, mask_phrases_good_taste. f_equal.
  fold (masked_text U text).
  pose proof (@scan_score_from L (_tokenize U (masked_text U text))
                (start_state (-2 * Z.of_nat (length (hits (lower U text) GOOD_TASTE))))
                (start_state 0) eq_refl eq_refl) as S.
  unfold start_state in *. proj. lia.
Qed.

Lemma label_of_cases (s : Z) :
  label_of s = "positive"%string \/ label_of s = "negative"%string
  \/ label_of s = "neutral"%string.
Proof.
  unfold label_of. destruct (s >? 0)%Z; [auto|]. destruct (s <? 0)%Z; auto.
Qed.

(** C1: the phrase loop finds the occurrences of "good taste" from left to
    right, each search starting where the last occurrence ended, and misses
    none; it adds the weight -2 once for each, and puts a space at every
    position of each span and nowhere else, so the scan of the tokens reads
    none of the words in a span.  "the good taste of it" scores -2 and "good taste good taste",
    where the phrase is found twice, -4. *)
Theorem phrase_override_once (text : str) :
  let wt := lower U text in
  let offsets := hits wt GOOD_TASTE in
  let masked := mask_all wt (length GOOD_TASTE) offsets in
  scan_hits wt GOOD_TASTE 0 offsets
  /\ Forall (fun h => h + length GOOD_TASTE <= length wt
                      /\ slice wt h (h + length GOOD_TASTE) = GOOD_TASTE) offsets
  /\ StronglySorted (fun a b => a + length GOOD_TASTE <= b) offsets
  /\ (forall j, starts_with GOOD_TASTE (skipn j wt) = true -> In j offsets)
  /\ mask_phrases (PHRASE_SENTIMENT lexicon) wt 0
     = Some ((-2 * Z.of_nat (length offsets))%Z, masked)
  /\ length masked = length wt
  /\ (forall p, nth_error masked p
                = if covered offsets (length GOOD_TASTE) p then Some SPACE
                  else nth_error wt p)
  /\ final_score U lexicon text
     = Some (-2 * Z.of_nat (length offsets)
             + score (scan lexicon (start_state 0) (_tokenize U masked)))%Z
  /\ (hits (lower U (str_of "the good taste of it")) GOOD_TASTE = [4]
      /\ _tokenize U (masked_text U (str_of "the good taste of it"))
         = [str_of "the"; str_of "of"; str_of "it"]
      /\ final_score U lexicon (str_of "the good taste of it") = Some (-2)%Z)
  /\ (hits (lower U (str_of "good taste good taste")) GOOD_TASTE = [0; 11]
      /\ _tokenize U (masked_text U (str_of "good taste good taste")) = []
      /\ final_score U lexicon (str_of "good taste good taste") = Some (-4)%Z).
Proof.
  intros wt offsets masked.
  assert (Hscan : scan_hits wt GOOD_TASTE 0 offsets)
    by (apply (hits_from_scan good_taste_nonempty); lia).
  pose proof (scan_hits_occurrences Hscan) as Hocc.
  assert (Hin : Forall (fun h => h + length GOOD_TASTE <= length wt) offsets)
    by (eapply Forall_impl; [|exact Hocc]; simpl; tauto).
  split; [exact Hscan|].
  split; [eapply Forall_impl; [|exact Hocc]; simpl; tauto|].
  split; [exact (scan_hits_sorted Hscan)|].
  split.
  { intros j Occ.
    apply (scan_hits_complete good_taste_nonempty good_taste_unbordered Hscan);
      [lia | exact Occ]. }
  split; [apply mask_phrases_good_taste|].
  split; [apply mask_all_length; exact Hin|].
  split; [intros p; apply mask_all_nth_error; exact Hin|].
  split; [apply final_score_good_taste; reflexivity|].
  split; (split; [|split]); vm_compute; reflexivity.
Qed.

(** C8: the call returns, whatever the text, and what it returns is one of
    the three labels. *)
Theorem analyze_sentiment_total (text : str) :
  exists label,
    analyze_sentiment U text = Some label
    /\ (label = "positive"%string \/ label = "negative"%string
        \/ label = "neutral"%string).
Proof.
  unfold analyze_sentiment, analyze_with. destruct (blank U text).
  - exists "neutral"%string. auto.
  - rewrite final_score_good_taste by reflexivity. simpl.
    eexists. split; [reflexivity | apply label_of_cases].
Qed.

(** *** Whitespace *)

Lemma find_in_spaces (text : str) (start : nat) :
  forallb (isspace U) text = true -> find text GOOD_TASTE start = None.
Proof.
  intros H. destruct (find text GOOD_TASTE start) as [idx|] eqn:F; [exfalso|reflexivity].
  destruct (find_Some _ _ _ F) as (_ & _ & C & _).
  apply (@starts_with_split GOOD_TASTE) in C.
  rewrite forallb_forall in H. specialize (H 103%N).
  assert (I : In 103%N text).
  { rewrite <- (firstn_skipn idx text). apply in_or_app. right.
    rewrite C. left. reflexivity. }
  specialize (H I). discriminate.
Qed.

Lemma final_score_spaces (text : str) :
  spaces_not_alnum U -> spaces_lower_to_themselves U ->
  forallb (isspace U) text = true ->
  final_score U lexicon text = Some 0%Z.
Proof.
  intros L1 L2 H. rewrite final_score_good_taste by reflexivity.
  unfold masked_text. rewrite lower_spaces by assumption.
  unfold hits. cbn [hits_from]. rewrite find_in_spaces by exact H.
  cbn [mask_all fold_left length]. rewrite tokenize_spaces by assumption.
  reflexivity.
Qed.

(** C6: the label is "positive" for a score above 0, "negative" for one
    below and "neutral" for 0; a text that is empty or all whitespace is
    "neutral" by the return at the head of the function, which is also what
    its score, 0, would give. *)
Theorem label_by_sign (s : Z) (text : str) :
  ((0 < s)%Z -> label_of s = "positive"%string)
  /\ ((s < 0)%Z -> label_of s = "negative"%string)
  /\ (s = 0%Z -> label_of s = "neutral"%string)
  /\ (blank U text = false ->
      analyze_sentiment U text = option_map label_of (final_score U lexicon text))
  /\ analyze_sentiment U [] = Some "neutral"%string
  /\ (forallb (isspace U) text = true ->
      analyze_sentiment U text = Some "neutral"%string
      /\ (spaces_not_alnum U -> spaces_lower_to_themselves U ->
          final_score U lexicon text = Some 0%Z)).
Proof.
  unfold label_of. repeat split.
  - intros H. destruct (s >? 0)%Z eqn:G; [reflexivity | lia].
  - intros H. destruct (s >? 0)%Z eqn:G; [lia|].
    destruct (s <? 0)%Z eqn:G'; [reflexivity | lia].
  - intros ->. reflexivity.
  - intros B. unfold analyze_sentiment, analyze_with. rewrite B. reflexivity.
  - unfold analyze_sentiment, analyze_with.
    rewrite (proj2 (blank_spaces U text) H). reflexivity.
  - intros L1 L2. apply final_score_spaces; assumption.
Qed.


(** C5: in a text whose lowercased form holds no negation marker, no "but"
    and no occurrence of a phrase of the table, the score is the number of
    positive tokens minus the number of negative ones, and the label is the
    one of that score. *)
Theorem plain_text_score (text : str) :
  spaces_not_alnum U -> spaces_lower_to_themselves U ->
  (forall phrase w, In (phrase, w) (PHRASE_SENTIMENT lexicon) ->
                    find (lower U text) phrase 0 = None) ->
  (forall t, In t (_tokenize U (lower U text)) -> ordinary lexicon t = true) ->
  let tokens := _tokenize U (lower U text) in
  let n := (count_in (POSITIVE_WORDS lexicon) tokens
            - count_in (NEGATIVE_WORDS lexicon) tokens)%Z in
  final_score U lexicon text = Some n
  /\ analyze_sentiment U text = Some (label_of n).
Proof.
  intros L1 L2 Hphrase Hord tokens n.
  assert (F : find (lower U text) GOOD_TASTE 0 = None)
    by (apply (Hphrase GOOD_TASTE (-2)%Z); left; reflexivity).
  assert (S : final_score U lexicon text = Some n).
  { rewrite final_score_good_taste by reflexivity.
    unfold masked_text, hits. cbn [hits_from]. rewrite F.
    cbn [mask_all fold_left length]. fold tokens.
    rewrite scan_plain by (exact Hord || reflexivity).
    unfold start_state. proj. f_equal; subst n; lia. }
  split; [exact S|].
  unfold analyze_sentiment, analyze_with. destruct (blank U text) eqn:B.
  - apply blank_spaces in B.
    assert (T : tokens = []).
    { subst tokens. rewrite (@lower_spaces U text L2 B).
      apply tokenize_spaces; assumption. }
    subst n. rewrite T. reflexivity.
  - rewrite S. reflexivity.
Qed.

(** C7, amended: the tokenizer lowers the text and emits, in order, its
    maximal runs of word characters and apostrophes, each without the
    apostrophes at its two ends, and nothing for a run of apostrophes alone;
    no other character is in a token, and an empty or all-whitespace text
    has no token. *)
Theorem tokenize_trimmed_runs (text : str) :
  _tokenize U text = trimmed_runs U (lower U text)
  /\ (forall t, In t (_tokenize U text) ->
        token_shape U t
        /\ exists r, In r (runs U (lower U text)) /\ t = strip_apostrophes r)
  /\ _tokenize U [] = []
  /\ (spaces_not_alnum U -> spaces_lower_to_themselves U ->
      forallb (isspace U) text = true -> _tokenize U text = []).
Proof.
  assert (E : _tokenize U text = trimmed_runs U (lower U text))
    by apply findall_trimmed.
  split; [exact E|]. split; [|split].
  - intros t H. rewrite E in H. apply trimmed_runs_shape. exact H.
  - reflexivity.
  - intros L1 L2 H. apply tokenize_spaces; assumption.
Qed.

(** *** The entry "n't" *)

Lemma mem_without_nt (t : str) (words : list str) :
  str_eqb t NT = false ->
  mem t (filter (fun x => negb (str_eqb x NT)) words) = mem t words.
Proof.
  intros N. unfold mem. induction words as [|x words IH]; [reflexivity|].
  cbn [filter existsb]. destruct (str_eqb x NT) eqn:X; cbn [negb existsb].
  - apply str_eqb_eq in X. subst x. rewrite N. exact IH.
  - rewrite IH. reflexivity.
Qed.

Lemma step_without_nt (st : scan_state) (t : str) :
  t <> NT -> step lexicon_without_nt st t = step lexicon st t.
Proof.
  intros N. apply str_eqb_neq in N. unfold step.
  change (NEGATIONS lexicon_without_nt)
    with (filter (fun x => negb (str_eqb x NT)) (NEGATIONS lexicon)).
  rewrite mem_without_nt by exact N. reflexivity.
Qed.

Lemma scan_without_nt (tokens : list str) (st : scan_state) :
  ~ In NT tokens -> scan lexicon_without_nt st tokens = scan lexicon st tokens.
Proof.
  revert st. induction tokens as [|t tokens IH]; intros st N; [reflexivity|].
  rewrite !scan_cons, step_without_nt by (intros ->; apply N; left; reflexivity).
  apply IH. intros H. apply N. right. exact H.
Qed.

(** C10, amended: every token begins and ends with a word character.
    "n't" does too, and it is a token of a text where it stands by itself,
    as in "n't good", which is "negative" with the entry and "positive"
    without; taking the entry out leaves the label as it was for every text
    with no such token. *)
Theorem token_ends_and_nt (text : str) :
  (forall t, In t (_tokenize U text) -> token_shape U t)
  /\ (~ In NT (_tokenize U (masked_text U text)) ->
      analyze_with U lexicon_without_nt text = analyze_sentiment U text)
  /\ (_tokenize U (str_of "n't good") = [NT; str_of "good"]
      /\ analyze_sentiment U (str_of "n't good") = Some "negative"%string
      /\ analyze_with U lexicon_without_nt (str_of "n't good")
         = Some "positive"%string).
Proof.
  split; [|split].
  - intros t H. unfold _tokenize in H. rewrite findall_trimmed in H.
    apply trimmed_runs_shape in H. apply H.
  - intros N. unfold analyze_sentiment, analyze_with.
    destruct (blank U text); [reflexivity|].
    rewrite !final_score_good_taste by reflexivity.
    rewrite scan_without_nt by exact N. reflexivity.
  - repeat split; vm_compute; reflexivity.
Qed.

(** *** A phrase inside longer words *)

Lemma space_separates : in_class U SPACE = false.
Proof. reflexivity. Qed.

Lemma findall_spaces_app (n : nat) (b : str) :
  findall U (repeat SPACE n ++ b) = findall U b.
Proof.
  induction n as [|n IH]; [reflexivity|].
  change (repeat SPACE (S n) ++ b) with ([] ++ SPACE :: (repeat SPACE n ++ b)).
  rewrite findall_app_sep by exact space_separates. exact IH.
Qed.

(** C9: the phrase is searched for as a string of characters: wherever
    "good taste" stands in the lowercased text, whatever stands next to it,
    that occurrence is found, -2 is added for it and its span is masked; the
    spaces part what is left of the words around it into tokens of their
    own, as in "feelgood tastes", which leaves "feel" and "s". *)
Theorem phrase_inside_words (text pre post : str) :
  lower U text = pre ++ GOOD_TASTE ++ post ->
  let offsets := hits (lower U text) GOOD_TASTE in
  In (length pre) offsets
  /\ final_score U lexicon text
     = Some (-2 * Z.of_nat (length offsets)
             + score (scan lexicon (start_state 0)
                        (_tokenize U (masked_text U text))))%Z
  /\ (forall p, length pre <= p < length pre + length GOOD_TASTE ->
                nth_error (masked_text U text) p = Some SPACE)
  /\ (forall a b n,
        findall U (a ++ repeat SPACE (S n) ++ b) = findall U a ++ findall U b)
  /\ (masked_text U (str_of "feelgood tastes") = str_of "feel          s"
      /\ _tokenize U (masked_text U (str_of "feelgood tastes"))
         = [str_of "feel"; str_of "s"]
      /\ final_score U lexicon (str_of "feelgood tastes") = Some (-2)%Z).
Proof.
  intros E offsets.
  assert (Hscan : scan_hits (lower U text) GOOD_TASTE 0 offsets)
    by (apply (hits_from_scan good_taste_nonempty); lia).
  assert (Hin : In (length pre) offsets).
  { apply (scan_hits_complete good_taste_nonempty good_taste_unbordered Hscan);
      [lia|].
    rewrite E, skipn_length_app. apply starts_with_app. }
  split; [exact Hin|].
  split; [apply final_score_good_taste; reflexivity|].
  split; [|split].
  - intros p Hp. unfold masked_text. fold offsets.
    rewrite mask_all_nth_error.
    + replace (covered offsets (length GOOD_TASTE) p) with true; [reflexivity|].
      symmetry. apply existsb_exists. exists (length pre). split; [exact Hin|].
      apply andb_true_iff. split; [apply Nat.leb_le | apply Nat.ltb_lt]; lia.
    + eapply Forall_impl; [|exact (scan_hits_occurrences Hscan)]. simpl. tauto.
  - intros a b n. cbn [repeat app].
    rewrite findall_app_sep by exact space_separates.
    rewrite findall_spaces_app. reflexivity.
  - repeat split; vm_compute; reflexivity.
Qed.

End Claims.

(** * Instances

    The statements above that rest on a hypothesis, at a text and at the
    tables of [sample_db]. *)

Lemma label_by_sign_witness :
  label_of 3 = "positive"%string
  /\ label_of (-1) = "negative"%string
  /\ analyze_sentiment sample_db (str_of "   ") = Some "neutral"%string.
Proof.
  pose proof (label_by_sign sample_db 3 (str_of "   ")) as P.
  pose proof (label_by_sign sample_db (-1) (str_of "   ")) as Q.
  split; [exact (proj1 P eq_refl)|].
  split; [exact (proj1 (proj2 Q) eq_refl)|].
  exact (proj1 (proj2 (proj2 (proj2 (proj2 (proj2 P)))) eq_refl)).
Defined.

Lemma plain_text_score_witness :
  final_score sample_db lexicon (str_of "Good food, bad service; GREAT view")
  = Some 1%Z
  /\ analyze_sentiment sample_db (str_of "Good food, bad service; GREAT view")
     = Some "positive"%string.
Proof.
  refine (@plain_text_score sample_db
            (str_of "Good food, bad service; GREAT view")
            sample_spaces_not_alnum sample_spaces_lower _ _).
  - intros phrase w [H|[]]. injection H as <- _. reflexivity.
  - intros t H. vm_compute in H.
    repeat (destruct H as [<-|H]; [reflexivity|]). destruct H.
Defined.

Lemma tokenize_trimmed_runs_witness : _tokenize sample_db (str_of "  	 ") = [].
Proof.
  exact (proj2 (proj2 (proj2 (@tokenize_trimmed_runs sample_db (str_of "  	 "))))
           sample_spaces_not_alnum sample_spaces_lower eq_refl).
Defined.

(** The text "'hello'" is one run of the class, and its token is "hello":
    the tokens are not the runs as they stand. *)
Lemma tokenize_not_the_runs :
  exists text,
    text = str_of "'hello'"
    /\ forall U,
         runs U (lower U text) = [str_of "'hello'"]
         /\ _tokenize U text = [str_of "hello"]
         /\ _tokenize U text <> runs U (lower U text).
Proof.
  exists (str_of "'hello'"). split; [reflexivity|]. intros U.
  split; [vm_compute; reflexivity|]. split; [vm_compute; reflexivity|].
  vm_compute. discriminate.
Qed.

Lemma token_ends_and_nt_witness :
  analyze_with sample_db lexicon_without_nt (str_of "isn't good")
  = analyze_sentiment sample_db (str_of "isn't good").
Proof.
  refine (proj1 (proj2 (@token_ends_and_nt sample_db (str_of "isn't good"))) _).
  vm_compute. intros [H|[H|[]]]; discriminate H.
Defined.

(** "n't" is a token of "n't good", and the label of that text is not the
    same once the entry is taken out. *)
Lemma nt_is_reachable :
  exists text,
    text = str_of "n't good"
    /\ forall U,
         In NT (_tokenize U text)
         /\ analyze_sentiment U text = Some "negative"%string
         /\ analyze_with U lexicon_without_nt text = Some "positive"%string
         /\ analyze_with U lexicon_without_nt text <> analyze_sentiment U text.
Proof.
  exists (str_of "n't good"). split; [reflexivity|]. intros U.
  split; [vm_compute; left; reflexivity|].
  split; [vm_compute; reflexivity|]. split; [vm_compute; reflexivity|].
  vm_compute. discriminate.
Qed.

Lemma phrase_inside_words_witness :
  In 4 (hits (lower sample_db (str_of "feelgood tastes")) GOOD_TASTE).
Proof.
  exact (proj1 (@phrase_inside_words sample_db (str_of "feelgood tastes")
                  (str_of "feel") (str_of "s") eq_refl)).
Defined.

(** A text that is not ASCII, "CafÉ!": the tokenizer lowers the capital E
    with an acute accent and keeps it in the word. *)
Example tokenize_cafe :
  _tokenize sample_db [67; 97; 102; 201; 33]%N = [[99; 97; 102; 233]%N].
Proof. reflexivity. Qed.

(** * More of the engine *)

Section Window.

Variable L : Lexicon.

Lemma step_window_range (st : scan_state) (token : str) :
  (0 <= negate_window st <= 3)%Z ->
  (0 <= negate_window (step L st token) <= 3)%Z.
Proof.
  intros W. unfold step.
  destruct (str_eqb token BUT); [exact W|].
  destruct (mem token (NEGATIONS L)); proj; [lia|].
  destruct (Z.gtb_spec (negate_window st) 0); lia.
Qed.

Lemma scan_window_range (tokens : list str) (st : scan_state) :
  (0 <= negate_window st <= 3)%Z ->
  (0 <= negate_window (scan L st tokens) <= 3)%Z.
Proof.
  revert st. induction tokens as [|t tokens IH]; intros st W; [exact W|].
  rewrite scan_cons. apply IH, step_window_range, W.
Qed.

(** X1: wherever the scan of a text stands, the negation window is a number
    from 0 to 3. *)
Theorem window_in_range (score0 : Z) (seen rest : list str) :
  (0 <= negate_window (scan L (start_state score0) seen) <= 3)%Z
  /\ (0 <= negate_window (scan L (start_state score0) (seen ++ rest)) <= 3)%Z.
Proof.
  split; apply scan_window_range; simpl; lia.
Qed.

Lemma step_ordinary (st : scan_state) (t : str) :
  ordinary L t = true ->
  negate_window (step L st t)
  = (if (negate_window st >? 0)%Z then negate_window st - 1 else negate_window st)%Z
  /\ after_but (step L st t) = after_but st
  /\ score (step L st t)
     = (if (base_delta L t =? 0)%Z then score st
        else score st + word_delta st (base_delta L t))%Z.
Proof.
  unfold ordinary, is_but. intros O.
  apply andb_true_iff in O. destruct O as [Ob On]. apply negb_true_iff in Ob, On.
  unfold step. rewrite Ob, On. proj. repeat split.
Qed.

(** Tokens that are neither "but" nor a marker count the window down, one
    each, and leave the flag as it is. *)
Lemma scan_ordinary_window (tokens : list str) (st : scan_state) :
  (forall t, In t tokens -> ordinary L t = true) ->
  (0 <= negate_window st)%Z ->
  negate_window (scan L st tokens)
  = Z.max 0 (negate_window st - Z.of_nat (length tokens))
  /\ after_but (scan L st tokens) = after_but st.
Proof.
  revert st. induction tokens as [|t tokens IH]; intros st O W.
  - simpl. split; [lia | reflexivity].
  - rewrite scan_cons.
    destruct (step_ordinary st t (O t (or_introl eq_refl))) as (Wt & Bt & _).
    destruct (IH (step L st t)) as [Wi Bi].
    + intros t' H. apply O. right. exact H.
    + rewrite Wt. destruct (Z.gtb_spec (negate_window st) 0); lia.
    + rewrite Wi, Bi, Wt, Bt. split; [|reflexivity].
      cbn [length]. rewrite Nat2Z.inj_succ.
      destruct (Z.gtb_spec (negate_window st) 0); lia.
Qed.

(** X2: a negation marker reaches the three tokens after it and no further.
    After a marker and [n] tokens that are neither "but" nor a marker the
    window is [3 - n], or 0 from the third on; a word with a polarity that
    comes next has its sign flipped when [n < 3], and counts as it stands
    when [n >= 3]. *)
Theorem negation_reach (st : scan_state) (marker : str) (tokens : list str)
    (word : str) :
  str_eqb marker BUT = false -> mem marker (NEGATIONS L) = true ->
  (forall t, In t tokens -> ordinary L t = true) ->
  ordinary L word = true -> polar L word = true ->
  let emphasis := if after_but st then 2%Z else 1%Z in
  negate_window (scan L st (marker :: tokens))
  = Z.max 0 (3 - Z.of_nat (length tokens))
  /\ score (scan L st (marker :: tokens ++ [word]))
     = (score (scan L st (marker :: tokens))
        + (if (length tokens <? 3)%nat then - base_delta L word
           else base_delta L word)
          * emphasis)%Z.
Proof.
  intros Hb Hm Ho Hw Hp emphasis.
  assert (E : step L st marker
              = {| score := score st; negate_window := 3;
                   after_but := after_but st |})
    by (unfold step; rewrite Hb, Hm; reflexivity).
  rewrite !scan_cons, E.
  set (st3 := {| score := score st; negate_window := 3; after_but := after_but st |}).
  destruct (scan_ordinary_window tokens st3 Ho) as [W B]; [simpl; lia|].
  split; [exact W|].
  unfold scan in *. rewrite fold_left_app. cbn [fold_left].
  fold (scan L st3 tokens) in *.
  destruct (step_ordinary (scan L st3 tokens) word Hw) as (_ & _ & S).
  rewrite S. unfold polar in Hp. apply negb_true_iff in Hp. rewrite Hp.
  unfold word_delta. rewrite W, B. subst st3 emphasis. proj.
  destruct (Nat.ltb_spec (length tokens) 3);
    destruct (Z.gtb_spec (Z.max 0 (3 - Z.of_nat (length tokens))) 0);
    destruct (after_but st); lia.
Qed.

(** A token with no polarity leaves the score as it is. *)
Lemma step_score_bound (st : scan_state) (t : str) :
  (Z.abs (score (step L st t) - score st)
   <= 2 * (if polar L t then 1 else 0))%Z.
Proof.
  unfold step, polar, word_delta.
  destruct (str_eqb t BUT); [proj; destruct (negb _); lia|].
  destruct (mem t (NEGATIONS L)); [proj; destruct (negb _); lia|].
  proj. unfold base_delta.
  destruct (mem t (POSITIVE_WORDS L)); [|destruct (mem t (NEGATIVE_WORDS L))];
    cbn [Z.eqb negb]; destruct (negate_window st >? 0)%Z, (after_but st); lia.
Qed.

Lemma scan_score_bound (tokens : list str) (st : scan_state) :
  (Z.abs (score (scan L st tokens) - score st) <= 2 * count_polar L tokens)%Z.
Proof.
  revert st. induction tokens as [|t tokens IH]; intros st.
  - unfold count_polar. simpl. lia.
  - rewrite scan_cons. specialize (IH (step L st t)).
    pose proof (step_score_bound st t) as S.
    unfold count_polar in *. cbn [filter].
    destruct (polar L t); cbn [length]; rewrite ?Nat2Z.inj_succ; lia.
Qed.

End Window.

(** ** ASCII texts *)

Lemma ascii_lower_ascii (c : char) : is_ascii c = true -> is_ascii (ascii_lower c) = true.
Proof.
  intros A. unfold ascii_lower. destruct (between 65 90 c) eqn:B; [|exact A].
  chars. apply N.ltb_lt. lia.
Qed.

Lemma ascii_lower_not_upper (c : char) : between 65 90 (ascii_lower c) = false.
Proof.
  unfold ascii_lower. destruct (between 65 90 c) eqn:B; [|exact B].
  destruct (between 65 90 (c + 32)%N) eqn:B'; [|reflexivity]. chars. lia.
Qed.

Lemma ascii_lower_idem (c : char) : ascii_lower (ascii_lower c) = ascii_lower c.
Proof.
  unfold ascii_lower at 1. rewrite ascii_lower_not_upper. reflexivity.
Qed.

Lemma ascii_lower_space (c : char) : ascii_isspace (ascii_lower c) = ascii_isspace c.
Proof.
  unfold ascii_lower. destruct (between 65 90 c) eqn:B; [|reflexivity].
  destruct (ascii_isspace (c + 32)%N) eqn:S1; destruct (ascii_isspace c) eqn:S2;
    try reflexivity; exfalso; chars; lia.
Qed.

Section Ascii.

Variable U : UnicodeDB.

Lemma lower_ascii (s : str) :
  forallb is_ascii s = true -> lower U s = map ascii_lower s.
Proof. intros A. unfold lower. rewrite A. reflexivity. Qed.

Lemma lower_ascii_closed (s : str) :
  forallb is_ascii s = true -> forallb is_ascii (lower U s) = true.
Proof.
  intros A. rewrite lower_ascii by exact A.
  rewrite forallb_forall in *. intros c H. apply in_map_iff in H.
  destruct H as (x & <- & Hx). apply ascii_lower_ascii, A, Hx.
Qed.

Lemma lower_idem_ascii (s : str) :
  forallb is_ascii s = true -> lower U (lower U s) = lower U s.
Proof.
  intros A. rewrite (lower_ascii (lower U s)) by (apply lower_ascii_closed, A).
  rewrite lower_ascii by exact A. rewrite map_map.
  apply map_ext. intros c. apply ascii_lower_idem.
Qed.

Lemma lower_app_ascii (a b : str) :
  forallb is_ascii a = true -> forallb is_ascii b = true ->
  lower U (a ++ b) = lower U a ++ lower U b.
Proof.
  intros A B.
  rewrite (lower_ascii a A), (lower_ascii b B).
  rewrite lower_ascii by (rewrite forallb_app, A, B; reflexivity).
  apply map_app.
Qed.

Lemma blank_lower_ascii (s : str) :
  forallb is_ascii s = true -> blank U (lower U s) = blank U s.
Proof.
  intros A. pose proof (lower_ascii s A) as E.
  assert (F : forallb (isspace U) (lower U s) = forallb (isspace U) s).
  { rewrite E. clear E. induction s as [|c s IH]; [reflexivity|].
    simpl in *. apply andb_true_iff in A. destruct A as [Ac As].
    rewrite IH by exact As. f_equal. unfold isspace.
    rewrite Ac, (ascii_lower_ascii c Ac). apply ascii_lower_space. }
  destruct (blank U s) eqn:B.
  - apply blank_spaces. rewrite F. apply blank_spaces. exact B.
  - destruct (blank U (lower U s)) eqn:B'; [|reflexivity].
    apply blank_spaces in B'. rewrite F in B'. apply blank_spaces in B'. congruence.
Qed.

(** X3: the label of an ASCII text does not depend on the case of its
    letters: the text and its lowercase form, and any two texts with the same
    lowercase form, get the same label. *)
Theorem label_ignores_case (text other : str) :
  forallb is_ascii text = true ->
  analyze_sentiment U (lower U text) = analyze_sentiment U text
  /\ (forallb is_ascii other = true -> lower U other = lower U text ->
      analyze_sentiment U other = analyze_sentiment U text).
Proof.
  assert (K : forall t, forallb is_ascii t = true ->
                        analyze_sentiment U (lower U t) = analyze_sentiment U t).
  { intros t A. unfold analyze_sentiment, analyze_with, final_score.
    rewrite blank_lower_ascii, lower_idem_ascii by exact A. reflexivity. }
  intros A. split; [apply K, A|].
  intros B E. rewrite <- (K other B), <- (K text A), E. reflexivity.
Qed.

(** X6: an ASCII text is tokenized piece by piece: the tokens of a text with
    a character that is neither a word character nor an apostrophe in it are
    those of what stands before it and then those of what stands after. *)
Theorem tokenize_splits_at_separator (a b : str) (c : char) :
  forallb is_ascii a = true -> is_ascii c = true -> forallb is_ascii b = true ->
  in_class U c = false ->
  _tokenize U (a ++ c :: b) = _tokenize U a ++ _tokenize U b.
Proof.
  intros A C B Sep. unfold _tokenize.
  assert (Ec : ascii_lower c = c).
  { unfold ascii_lower. destruct (between 65 90 c) eqn:Up; [exfalso|reflexivity].
    unfold in_class, is_word in Sep. rewrite C in Sep.
    unfold ascii_isalnum in Sep. rewrite Up in Sep. simpl in Sep.
    rewrite orb_true_r in Sep. discriminate. }
  rewrite lower_app_ascii by (simpl; rewrite ?C, ?B; auto).
  change (c :: b) with ([c] ++ b).
  rewrite (lower_app_ascii [c] b) by (simpl; rewrite ?C; auto).
  rewrite (lower_ascii [c]) by (simpl; rewrite C; reflexivity).
  cbn [map app]. rewrite Ec. apply findall_app_sep. exact Sep.
Qed.

End Ascii.

Lemma label_ignores_case_witness :
  analyze_sentiment sample_db (str_of "NOT Good")
  = analyze_sentiment sample_db (str_of "not good").
Proof.
  exact (proj2 (@label_ignores_case sample_db (str_of "not good") (str_of "NOT Good")
                  eq_refl) eq_refl eq_refl).
Defined.

Lemma tokenize_splits_at_separator_witness :
  _tokenize sample_db (str_of "don't,stop") 
  = _tokenize sample_db (str_of "don't") ++ _tokenize sample_db (str_of "stop").
Proof.
  exact (@tokenize_splits_at_separator sample_db (str_of "don't") (str_of "stop") 44%N
           eq_refl eq_refl eq_refl eq_refl).
Defined.

(** ** The score and the label *)

Section Labels.

Variable U : UnicodeDB.

(** X4: the score of a text lies within 2 for each token with a polarity of
    -2 for each occurrence of the phrase; a text none of whose tokens is a
    positive or a negative word scores -2 for each occurrence and nothing
    else, and is never "positive". *)
Theorem score_bounded_by_polar_tokens (text : str) :
  let tokens := _tokenize U (masked_text U text) in
  let found := Z.of_nat (length (hits (lower U text) GOOD_TASTE)) in
  exists s,
    final_score U lexicon text = Some s
    /\ (-2 * found - 2 * count_polar lexicon tokens <= s
        <= -2 * found + 2 * count_polar lexicon tokens)%Z
    /\ (count_polar lexicon tokens = 0%Z ->
        s = (-2 * found)%Z
        /\ analyze_sentiment U text <> Some "positive"%string).
Proof.
  intros tokens found.
  pose proof (scan_score_bound lexicon tokens (start_state 0)) as Bd.
  change (score (start_state 0)) with 0%Z in Bd.
  eexists. split; [apply final_score_good_taste; reflexivity|].
  fold tokens found. split; [lia|].
  intros Z0. split; [lia|].
  unfold analyze_sentiment, analyze_with. destruct (blank U text); [easy|].
  rewrite final_score_good_taste by reflexivity. fold tokens found.
  cbn [option_map]. unfold label_of.
  destruct (Z.gtb_spec (-2 * found + score (scan lexicon (start_state 0) tokens)) 0);
    [lia|].
  destruct (_ <? 0)%Z; easy.
Qed.

(** X5: [main] prints the label [analyze_sentiment] gives for the line it
    read, followed by " sentiment": the label of the score when the line is
    not blank; at the end of the input, as for an empty line or a line of
    spaces, "neutral sentiment"; whatever the line, one of three lines.
    "I love it" prints "positive sentiment". *)
Theorem main_prints_one_line (line : option str) :
  let text := match line with Some text => text | None => [] end in
  (exists label,
     analyze_sentiment U text = Some label
     /\ main U line = Some (label ++ " sentiment")%string)
  /\ (blank U text = false ->
      exists s,
        final_score U lexicon text = Some s
        /\ main U line = Some (label_of s ++ " sentiment")%string)
  /\ main U None = Some "neutral sentiment"%string
  /\ (forallb (isspace U) text = true ->
      main U line = Some "neutral sentiment"%string)
  /\ (exists out,
        main U line = Some out
        /\ (out = "positive sentiment" \/ out = "negative sentiment"
            \/ out = "neutral sentiment")%string)
  /\ (main U (Some (str_of "I love it")) = Some "positive sentiment"%string
      /\ main U (Some (str_of "Not good.")) = Some "negative sentiment"%string
      /\ main U (Some (str_of "it is a table")) = Some "neutral sentiment"%string).
Proof.
  intros text.
  assert (M : main U line
              = option_map (fun label => (label ++ " sentiment")%string)
                           (analyze_sentiment U text))
    by (destruct line; reflexivity).
  assert (A : analyze_sentiment U text
              = if blank U text then Some "neutral"%string
                else Some (label_of
                       (-2 * Z.of_nat (length (hits (lower U text) GOOD_TASTE))
                        + score (scan lexicon (start_state 0)
                                   (_tokenize U (masked_text U text)))))).
  { unfold analyze_sentiment, analyze_with. destruct (blank U text); [reflexivity|].
    rewrite final_score_good_taste by reflexivity. reflexivity. }
  split; [|split; [|split; [|split; [|split]]]].
  - rewrite M, A. destruct (blank U text); eexists; split; reflexivity.
  - intros B. rewrite M, A, B. eexists.
    split; [apply final_score_good_taste; reflexivity | reflexivity].
  - reflexivity.
  - intros H. rewrite M, A, (proj2 (blank_spaces U text) H). reflexivity.
  - rewrite M, A. destruct (blank U text); cbn [option_map].
    + eexists. split; [reflexivity | auto].
    + match goal with
      | |- context [label_of ?x] =>
          destruct (label_of_cases x) as [E | [E | E]]; rewrite E
      end; eexists; (split; [reflexivity | auto]).
  - repeat split; vm_compute; reflexivity.
Qed.

End Labels.

(** ** The masked text *)

Lemma starts_with_nth (sub s : str) :
  starts_with sub s = true
  <-> forall i, i < length sub -> nth_error s i = nth_error sub i.
Proof.
  revert s. induction sub as [|x sub IH]; intros s.
  - simpl. split; [intros _ i Hi; lia | reflexivity].
  - destruct s as [|y s]; simpl.
    + split; [discriminate|]. intros H. specialize (H 0 ltac:(lia)). discriminate.
    + rewrite andb_true_iff, IH. unfold char_eqb. rewrite N.eqb_eq. split.
      * intros [-> H] [|i] Hi; [reflexivity|]. simpl. apply H. lia.
      * intros H. split.
        -- specialize (H 0 ltac:(lia)). simpl in H. congruence.
        -- intros i Hi. apply (H (S i)). lia.
Qed.

Lemma covered_iff (offsets : list nat) (len p : nat) :
  covered offsets len p = true
  <-> exists h, In h offsets /\ h <= p < h + len.
Proof.
  unfold covered. rewrite existsb_exists. split; intros (h & Hh & C); exists h.
  - apply andb_true_iff in C. destruct C as [A B].
    apply Nat.leb_le in A. apply Nat.ltb_lt in B. auto.
  - split; [exact Hh|]. apply andb_true_iff.
    split; [apply Nat.leb_le | apply Nat.ltb_lt]; lia.
Qed.

(** The one space of the phrase is its fifth character. *)
Lemma good_taste_space (i : nat) :
  i < 10 -> nth_error GOOD_TASTE i = Some SPACE -> i = 4.
Proof.
  intros Hi H.
  do 10 (destruct i as [|i]; [simpl in H; try discriminate H; try reflexivity|]).
  lia.
Qed.

Section Masked.

Variable U : UnicodeDB.

(** X7: when the phrase loop has ended there is no "good taste" left in the
    working text: the spaces it wrote make no new occurrence, and a search
    of the masked text finds nothing. *)
Theorem masking_leaves_no_phrase (text : str) (start : nat) :
  find (masked_text U text) GOOD_TASTE start = None
  /\ hits (masked_text U text) GOOD_TASTE = [].
Proof.
  assert (K : forall from, find (masked_text U text) GOOD_TASTE from = None).
  { intros from. unfold masked_text.
    set (wt := lower U text). set (offsets := hits wt GOOD_TASTE).
    assert (Hscan : scan_hits wt GOOD_TASTE 0 offsets)
      by (apply (hits_from_scan good_taste_nonempty); lia).
    assert (Hin : Forall (fun h => h + length GOOD_TASTE <= length wt) offsets).
    { eapply Forall_impl; [|exact (scan_hits_occurrences Hscan)]. simpl. tauto. }
    pose proof (fun p => mask_all_nth_error GOOD_TASTE wt p Hin) as Hnth.
    set (masked := mask_all wt (length GOOD_TASTE) offsets) in *.
    change (length GOOD_TASTE) with 10 in *.
    destruct (find masked GOOD_TASTE from) as [idx|] eqn:F; [exfalso|reflexivity].
    destruct (find_Some _ _ _ F) as (_ & _ & C & _).
    assert (N : forall i, i < 10 -> nth_error masked (idx + i) = nth_error GOOD_TASTE i).
    { intros i Hi. rewrite <- nth_error_skipn.
      apply (proj1 (starts_with_nth GOOD_TASTE _) C). exact Hi. }
    assert (Cov : forall i, i < 10 -> covered offsets 10 (idx + i) = true -> i = 4).
    { intros i Hi X. apply good_taste_space; [exact Hi|].
      rewrite <- N, Hnth, X by exact Hi. reflexivity. }
    assert (NoCov : forall i, i < 10 -> covered offsets 10 (idx + i) = false).
    { intros i Hi. destruct (covered offsets 10 (idx + i)) eqn:X; [exfalso|reflexivity].
      pose proof (Cov i Hi X) as ->.
      apply covered_iff in X. destruct X as (h & Hh & R).
      destruct (Nat.eq_dec h (idx + 4)) as [->|Ne].
      - assert (X5 : covered offsets 10 (idx + 5) = true)
          by (apply covered_iff; exists (idx + 4); split; [exact Hh | lia]).
        specialize (Cov 5 ltac:(lia) X5). lia.
      - assert (X3 : covered offsets 10 (idx + 3) = true)
          by (apply covered_iff; exists h; split; [exact Hh | lia]).
        specialize (Cov 3 ltac:(lia) X3). lia. }
    assert (Occ : starts_with GOOD_TASTE (skipn idx wt) = true).
    { apply starts_with_nth. intros i Hi. change (length GOOD_TASTE) with 10 in Hi.
      rewrite nth_error_skipn, <- (N i Hi), Hnth, (NoCov i Hi). reflexivity. }
    assert (I : In idx offsets).
    { apply (scan_hits_complete good_taste_nonempty good_taste_unbordered Hscan);
        [lia | exact Occ]. }
    specialize (NoCov 0 ltac:(lia)). rewrite Nat.add_0_r in NoCov.
    assert (X : covered offsets 10 idx = true)
      by (apply covered_iff; exists idx; split; [exact I | lia]).
    congruence. }
  split; [apply K|]. unfold hits. cbn [hits_from]. rewrite K. reflexivity.
Qed.

(** *** The characters of a token *)

Lemma runs_from_incl (s cur r : str) (c : char) :
  In r (runs_from U cur s) -> In c r -> In c (cur ++ s).
Proof.
  revert cur. induction s as [|x s IH]; intros cur Hr Hc; simpl in Hr.
  - rewrite app_nil_r. destruct cur; [destruct Hr|].
    destruct Hr as [<-|[]]. exact Hc.
  - destruct (in_class U x).
    + specialize (IH _ Hr Hc). rewrite <- app_assoc in IH. exact IH.
    + apply in_app_or in Hr. destruct Hr as [Hr|Hr].
      * apply in_or_app. left. destruct cur; [destruct Hr|].
        destruct Hr as [<-|[]]. exact Hc.
      * specialize (IH _ Hr Hc). apply in_or_app. right. right. exact IH.
Qed.

Lemma strip_incl (r : str) (c : char) : In c (strip_apostrophes r) -> In c r.
Proof.
  unfold strip_apostrophes. intros H.
  destruct (rstrip_split (drop_while is_apostrophe r)) as (aps & E & _).
  rewrite <- (take_drop_while is_apostrophe r). apply in_or_app. right.
  rewrite E. apply in_or_app. left. exact H.
Qed.

(** X8: a token is made of characters of the lowercased text; in an ASCII
    text none of them is a capital letter, so a word is looked up in the
    tables in lowercase however it was written. *)
Theorem token_characters (text t : str) (c : char) :
  In t (_tokenize U text) -> In c t ->
  In c (lower U text)
  /\ in_class U c = true
  /\ (forallb is_ascii text = true -> between 65 90 c = false).
Proof.
  intros Ht Hc. unfold _tokenize in Ht. rewrite findall_trimmed in Ht.
  destruct (trimmed_runs_shape U _ _ Ht) as [(_ & Cl & _) (r & Hr & ->)].
  assert (I : In c (lower U text)).
  { exact (@runs_from_incl (lower U text) [] r c Hr (strip_incl r c Hc)). }
  split; [exact I|]. split.
  - rewrite forallb_forall in Cl. apply Cl, Hc.
  - intros A. rewrite lower_ascii in I by exact A.
    apply in_map_iff in I. destruct I as (x & <- & _).
    apply ascii_lower_not_upper.
Qed.

End Masked.

Lemma token_characters_witness :
  In 104%N (lower sample_db (str_of "'Hello' World"))
  /\ in_class sample_db 104%N = true
  /\ (forallb is_ascii (str_of "'Hello' World") = true
      -> between 65 90 104%N = false).
Proof.
  refine (@token_characters sample_db (str_of "'Hello' World") (str_of "hello")
            104%N _ _).
  - left. reflexivity.
  - left. reflexivity.
Defined.

(** * The product recommender *)

Module RecommenderFacts.

Import Recommender.

(** ** The generator *)

Lemma choice_nonempty (A : Type) (seq : list A) (t : tape) :
  seq <> [] ->
  exists x, choice seq t = Returns (x, snd (next t)) /\ In x seq.
Proof.
  intros Ne. unfold choice. destruct (next t) as [n t'] eqn:E. simpl.
  assert (Hlt : n mod length seq < length seq).
  { apply Nat.mod_upper_bound. destruct seq; [contradiction | simpl; lia]. }
  destruct (nth_error seq (n mod length seq)) as [x|] eqn:N.
  - exists x. split; [reflexivity|]. eapply nth_error_In, N.
  - apply nth_error_None in N. lia.
Qed.

Lemma draw_permutation (A : Type) (k : nat) (pool : list A) (t : tape) :
  length (fst (draw pool k t)) = Nat.min k (length pool)
  /\ exists rest, Permutation (fst (draw pool k t) ++ rest) pool.
Proof.
  revert pool t. induction k as [|k IH]; intros pool t.
  - simpl. split; [reflexivity|]. exists pool. reflexivity.
  - cbn [draw]. destruct (next t) as [n t1].
    assert (B : pool <> [] -> n mod length pool < length pool).
    { intros Ne. apply Nat.mod_upper_bound. destruct pool; [contradiction | simpl; lia]. }
    remember (n mod length pool) as i eqn:Ei. clear Ei.
    destruct (nth_error pool i) as [x|] eqn:N.
    + pose proof (nth_error_split pool _ N) as (l1 & l2 & E & L).
      assert (P : firstn i pool ++ skipn (S i) pool = l1 ++ l2).
      { subst pool i. rewrite firstn_length_app.
        change (l1 ++ x :: l2) with (l1 ++ [x] ++ l2).
        rewrite app_assoc.
        replace (S (length l1)) with (length (l1 ++ [x]))
          by (rewrite length_app; simpl; lia).
        rewrite skipn_length_app. reflexivity. }
      rewrite P. specialize (IH (l1 ++ l2) t1).
      destruct (draw (l1 ++ l2) k t1) as [rest t2]. cbn [fst] in *.
      destruct IH as [Len (more & Perm)]. split.
      * cbn [length]. rewrite Len, E, !length_app. cbn [length]. lia.
      * exists more. rewrite E. cbn [app]. apply Permutation_cons_app. exact Perm.
    + simpl. apply nth_error_None in N.
      destruct pool as [|y pool]; [split; [reflexivity | exists []; reflexivity]|].
      exfalso. specialize (B ltac:(discriminate)). lia.
Qed.

Lemma draw_incl (A : Type) (k : nat) (pool : list A) (t : tape) (x : A) :
  In x (fst (draw pool k t)) -> In x pool.
Proof.
  intros H. destruct (draw_permutation k pool t) as [_ (rest & P)].
  eapply Permutation_in; [exact P|]. apply in_or_app. left. exact H.
Qed.

Lemma draw_NoDup (A : Type) (k : nat) (pool : list A) (t : tape) :
  NoDup pool -> NoDup (fst (draw pool k t)).
Proof.
  intros H. destruct (draw_permutation k pool t) as [_ (rest & P)].
  apply Permutation_sym in P. apply (Permutation_NoDup P) in H.
  apply NoDup_app_remove_r in H. exact H.
Qed.

(** ** [unique] and [upto] *)

Lemma unique_from_spec (l seen : list str) :
  NoDup (unique_from seen l)
  /\ (forall x, In x (unique_from seen l) -> In x l /\ ~ In x seen).
Proof.
  revert seen. induction l as [|x l IH]; intros seen; simpl.
  - split; [constructor | intros x []].
  - destruct (mem x seen) eqn:M.
    + destruct (IH seen) as [N I]. split; [exact N|].
      intros y Hy. destruct (I y Hy). auto.
    + destruct (IH (x :: seen)) as [N I]. split.
      * constructor; [|exact N]. intros H. destruct (I x H) as [_ C].
        apply C. left. reflexivity.
      * intros y [<-|Hy].
        -- split; [auto|]. intros H. apply mem_In in H. congruence.
        -- destruct (I y Hy) as [A B]. split; [auto|].
           intros H. apply B. right. exact H.
Qed.

Lemma unique_from_keeps (a b seen : list str) :
  NoDup a -> (forall x, In x a -> ~ In x seen) ->
  exists rest, unique_from seen (a ++ b) = a ++ rest.
Proof.
  revert seen. induction a as [|x a IH]; intros seen N D; simpl.
  - eexists. reflexivity.
  - inversion N as [|? ? Hx Na]; subst.
    destruct (mem x seen) eqn:M.
    + apply mem_In in M. exfalso. apply (D x); [left; reflexivity | exact M].
    + destruct (IH (x :: seen) Na) as (rest & E).
      * intros y Hy [<-|H]; [contradiction|]. apply (D y); [right; exact Hy | exact H].
      * exists rest. rewrite E. reflexivity.
Qed.

Lemma upto_spec (l : list str) (n : Z) :
  exists k, upto l n = firstn k l /\ ((0 <= n)%Z -> k = Z.to_nat n).
Proof.
  unfold upto. destruct (Z.leb_spec 0 n); eexists; split; try reflexivity; lia.
Qed.

Lemma firstn_NoDup (A : Type) (k : nat) (l : list A) : NoDup l -> NoDup (firstn k l).
Proof.
  intros H. rewrite <- (firstn_skipn k l) in H.
  apply NoDup_app_remove_r in H. exact H.
Qed.

Lemma firstn_In (A : Type) (k : nat) (l : list A) (x : A) : In x (firstn k l) -> In x l.
Proof.
  intros H. rewrite <- (firstn_skipn k l). apply in_or_app. left. exact H.
Qed.

(** ** Tables *)

Lemma lookup_In (A : Type) (key : str) (d : list (str * A)) (v : A) :
  lookup key d = Some v -> In (key, v) d.
Proof.
  induction d as [|[k w] d IH]; simpl; [discriminate|].
  destruct (str_eqb key k) eqn:E.
  - apply str_eqb_eq in E. intros [= ->]. left. subst. reflexivity.
  - intros H. right. apply IH, H.
Qed.

Lemma lookup_key (A : Type) (key : str) (d : list (str * A)) :
  In key (map fst d) -> lookup key d <> None.
Proof.
  induction d as [|[k w] d IH]; simpl; [intros []|].
  destruct (str_eqb key k) eqn:E; [discriminate|].
  intros [H|H]; [|apply IH, H]. subst. rewrite str_eqb_refl in E. discriminate.
Qed.

Lemma distinct_NoDup (l : list str) : distinct l = true -> NoDup l.
Proof.
  induction l as [|x l IH]; simpl; [constructor|].
  intros H. apply andb_true_iff in H. destruct H as [M D].
  apply negb_true_iff in M. constructor; [|apply IH, D].
  intros I. apply mem_In in I. congruence.
Qed.

Lemma in_all_products (self : ProductRecommender) (category : str)
    (category_products : list (str * list str)) (p : str) :
  lookup category (products self) = Some category_products ->
  In p (concat (map snd category_products)) -> in_catalog self p.
Proof.
  intros Hl H. apply in_concat in H. destruct H as (items & Hi & Hp).
  apply in_map_iff in Hi. destruct Hi as ([sub items'] & E & Hs). simpl in E. subst.
  exists category, category_products, sub, items.
  split; [apply lookup_In, Hl|]. split; assumption.
Qed.

(** ** Substrings *)

Lemma contains_iff (s sub : str) :
  contains s sub = true <-> exists a b, s = a ++ sub ++ b.
Proof.
  unfold contains. split.
  - destruct (find_in sub s) as [k|] eqn:F; [|discriminate]. intros _.
    destruct (find_in_Some _ _ F) as (C & _).
    exists (firstn k s), (skipn (length sub) (skipn k s)).
    rewrite <- (@starts_with_split sub (skipn k s) C). symmetry. apply firstn_skipn.
  - intros (a & b & ->). destruct (find_in sub (a ++ sub ++ b)) eqn:F; [reflexivity|].
    pose proof (find_in_None _ _ F (length a)) as N.
    rewrite skipn_length_app, starts_with_app in N. discriminate.
Qed.

Section Methods.

Variable U : UnicodeDB.

(** ** The category of a search *)

Lemma first_category_spec (items : list (str * list str)) (s : str) :
  (first_category items s = GENERAL
   /\ forall category keywords, In (category, keywords) items ->
                                existsb (contains s) keywords = false)
  \/ (exists pre keywords post,
        items = pre ++ (first_category items s, keywords) :: post
        /\ existsb (contains s) keywords = true
        /\ forall category keywords', In (category, keywords') pre ->
                                      existsb (contains s) keywords' = false).
Proof.
  induction items as [|[c kws] items IH]; simpl.
  - left. split; [reflexivity | intros ? ? []].
  - destruct (existsb (contains s) kws) eqn:E.
    + right. exists [], kws, items. split; [reflexivity|].
      split; [exact E | intros ? ? []].
    + destruct IH as [[G N]|(pre & kws' & post & Ei & Ek & Ep)].
      * left. split; [exact G|]. intros c' k' [[= <- <-]|H]; [exact E | eauto].
      * right. exists ((c, kws) :: pre), kws', post. split; [|split].
        -- simpl. rewrite <- Ei. reflexivity.
        -- exact Ek.
        -- intros c' k' [[= <- <-]|H]; [exact E | eauto].
Qed.

(** The answer is an entry at or before the first one known to match. *)
Lemma first_category_before (items : list (str * list str)) (s : str)
    (pre : list (str * list str)) (c : str) (keywords : list str)
    (post : list (str * list str)) :
  items = pre ++ (c, keywords) :: post ->
  existsb (contains s) keywords = true ->
  In (first_category items s) (map fst pre ++ [c]).
Proof.
  intros -> E. induction pre as [|[c' k'] pre IH]; simpl.
  - rewrite E. left. reflexivity.
  - destruct (existsb (contains s) k'); [left; reflexivity | right; exact IH].
Qed.

(** X9: the category of a search is that of the first entry of the mapping,
    in the order it is written in, one of whose keywords stands somewhere in
    the lowercased search, and "general" when there is none; the case of an
    ASCII search does not matter.  With the tables of the program the answer
    is "general" or one of the six categories, and since "play" is a keyword
    of "toys", which comes first, no search with "play" in it is "games". *)
Theorem category_of_search (self : ProductRecommender) (search_term : str) :
  let s := lower U search_term in
  let category := get_category_from_search U self search_term in
  ((category = GENERAL
    /\ forall c keywords keyword,
         In (c, keywords) (category_mappings self) -> In keyword keywords ->
         ~ exists a b, s = a ++ keyword ++ b)
   \/ (exists pre keywords post keyword,
         category_mappings self = pre ++ (category, keywords) :: post
         /\ In keyword keywords
         /\ (exists a b, s = a ++ keyword ++ b)
         /\ forall c keywords' keyword',
              In (c, keywords') pre -> In keyword' keywords' ->
              ~ exists a b, s = a ++ keyword' ++ b))
  /\ (forallb is_ascii search_term = true ->
      get_category_from_search U self s = category)
  /\ In (get_category_from_search U init search_term) (GENERAL :: map fst mappings)
  /\ ((exists a b, s = a ++ str_of "play" ++ b) ->
      get_category_from_search U init search_term <> str_of "games").
Proof.
  intros s category.
  assert (No : forall kws, existsb (contains s) kws = false ->
                 forall kw, In kw kws -> ~ exists a b, s = a ++ kw ++ b).
  { intros kws E kw Hkw H. apply contains_iff in H.
    assert (X : existsb (contains s) kws = true)
      by (apply existsb_exists; exists kw; auto).
    congruence. }
  split; [|split; [|split]].
  - unfold category, get_category_from_search. fold s.
    destruct (first_category_spec (category_mappings self) s)
      as [[G N]|(pre & kws & post & Ei & Ek & Ep)].
    + left. split; [exact G|]. intros c kws kw Hc. apply No. eauto.
    + right. apply existsb_exists in Ek. destruct Ek as (kw & Hkw & Ck).
      exists pre, kws, post, kw. split; [exact Ei|]. split; [exact Hkw|].
      split; [apply contains_iff, Ck|].
      intros c k' kw' Hc. apply No. eauto.
  - intros A. unfold category, get_category_from_search. subst s.
    rewrite lower_idem_ascii by exact A. reflexivity.
  - unfold get_category_from_search. fold s. cbn [category_mappings init].
    generalize mappings. intros items.
    induction items as [|[c kws] items IH]; cbn [first_category map fst].
    + left. reflexivity.
    + destruct (existsb (contains s) kws).
      * right. left. reflexivity.
      * destruct IH as [IH|IH]; [left; exact IH | right; right; exact IH].
  - intros Play. apply contains_iff in Play.
    unfold get_category_from_search. fold s. cbn [category_mappings init].
    assert (B : In (first_category mappings s)
                   (map str_of ["clothes"; "mobile"; "toys"]%string)).
    { apply (@first_category_before mappings s
               (firstn 2 mappings) (str_of "toys")
               (map str_of ["toys"; "toy"; "play"; "children"; "kids"]%string)
               (skipn 3 mappings) eq_refl).
      apply existsb_exists. exists (str_of "play"). split; [|exact Play].
      right. right. left. reflexivity. }
    intros G. rewrite G in B. vm_compute in B.
    repeat (destruct B as [B|B]; [discriminate B|]). exact B.
Qed.

(** ** Recommendations from the history *)

Lemma history_step_ok (self : ProductRecommender) (search : str)
    (acc : list str) (t : tape) :
  exists more t',
    history_step U self search acc t = Returns (acc ++ more, t')
    /\ length more <= 1
    /\ forall p, In p more -> in_catalog self p.
Proof.
  unfold history_step.
  destruct (lookup _ (products self)) as [cp|] eqn:Hl.
  2:{ exists [], t. rewrite app_nil_r. split; [reflexivity|].
      split; [simpl; lia | intros ? []]. }
  destruct (map fst cp) as [|k ks] eqn:Hk.
  { exists [], t. rewrite app_nil_r. split; [reflexivity|].
    split; [simpl; lia | intros ? []]. }
  destruct (@choice_nonempty _ (k :: ks) t ltac:(discriminate)) as (sub & Ec & Hsub).
  rewrite Ec. rewrite <- Hk in Hsub.
  destruct (lookup sub cp) as [items|] eqn:Hi;
    [|exfalso; exact (lookup_key _ _ Hsub Hi)].
  destruct items as [|p0 ps].
  { eexists [], _. rewrite app_nil_r. split; [reflexivity|].
    split; [simpl; lia | intros ? []]. }
  destruct (@choice_nonempty _ (p0 :: ps) (snd (next t)) ltac:(discriminate))
    as (p & Ep & Hp).
  rewrite Ep. exists [p]. eexists. split; [reflexivity|].
  split; [simpl; lia|]. intros q [<-|[]].
  exists (get_category_from_search U self search), cp, sub, (p0 :: ps).
  split; [apply lookup_In, Hl|]. split; [apply lookup_In, Hi | exact Hp].
Qed.

Lemma history_loop_ok (self : ProductRecommender) (recent acc : list str) (t : tape) :
  exists more t',
    history_loop U self recent acc t = Returns (acc ++ more, t')
    /\ length more <= length recent
    /\ forall p, In p more -> in_catalog self p.
Proof.
  revert acc t. induction recent as [|search recent IH]; intros acc t; simpl.
  - exists [], t. rewrite app_nil_r. split; [reflexivity|].
    split; [simpl; lia | intros ? []].
  - destruct (history_step_ok self search acc t) as (m1 & t1 & E1 & L1 & C1).
    rewrite E1. destruct (IH (acc ++ m1) t1) as (m2 & t2 & E2 & L2 & C2).
    exists (m1 ++ m2), t2. rewrite E2, app_assoc. split; [reflexivity|].
    split; [rewrite length_app; lia|].
    intros p H. apply in_app_or in H. destruct H; auto.
Qed.

(** X10: the recommendations from the history never fail; there is at most
    one for each of the last three searches, and each is a product of the
    tables. *)
Theorem history_recommendations_safe (self : ProductRecommender) (num : Z) (t : tape) :
  exists l t',
    get_history_based_recommendations U self num t = Returns (l, t')
    /\ length l <= Nat.min 3 (length (user_history self))
    /\ forall p, In p l -> in_catalog self p.
Proof.
  unfold get_history_based_recommendations.
  destruct (history_loop_ok self (last_n (user_history self) 3) [] t)
    as (l & t' & E & L & C).
  exists l, t'. split; [exact E|]. split; [|exact C].
  unfold last_n in L. rewrite length_skipn in L. lia.
Qed.

End Methods.

(** ** [get_recommendations] *)

(** The products of each category of the program's tables are all
    different, and there are at least fifteen of them. *)
Lemma catalog_distinct :
  forallb (fun entry =>
             distinct (concat (map snd (snd entry)))
             && (15 <=? length (concat (map snd (snd entry)))))
          catalog = true.
Proof. vm_compute. reflexivity. Qed.

Section Recommendations.

Variable U : UnicodeDB.

(** What [get_recommendations] has in hand before it removes the repeats:
    the sample, and after it what the history gives. *)
Lemma with_history_ok (self : ProductRecommender) (num : Z)
    (recommendations : list str) (t1 : tape) :
  exists more t',
    match user_history self with
    | [] => Returns (recommendations, t1)
    | _ =>
        match get_history_based_recommendations U self num t1 with
        | Raises e => Raises e
        | Returns (history_recommendations, t2) =>
            Returns (recommendations ++ history_recommendations, t2)
        end
    end = Returns (recommendations ++ more, t')
    /\ length more <= 3
    /\ forall p, In p more -> in_catalog self p.
Proof.
  destruct (user_history self) as [|h hs] eqn:H.
  - exists [], t1. rewrite app_nil_r. split; [reflexivity|].
    split; [simpl; lia | intros ? []].
  - destruct (history_loop_ok U self (last_n (user_history self) 3) [] t1)
      as (l & t' & E & L & C).
    unfold get_history_based_recommendations. rewrite E. simpl.
    exists l, t'. split; [reflexivity|]. split; [|exact C].
    unfold last_n in L. rewrite length_skipn in L. lia.
Qed.

Lemma recommendations_ok (self : ProductRecommender) (search_term : str)
    (num : Z) (t : tape) :
  (0 <= num)%Z ->
  exists l t',
    get_recommendations U self search_term num t = Returns (l, t')
    /\ NoDup l
    /\ (Z.of_nat (length l) <= num)%Z
    /\ forall p, In p l -> in_catalog self p.
Proof.
  intros Hn. unfold get_recommendations.
  set (category := get_category_from_search U self search_term).
  assert (S : exists l1 t1,
             match lookup category (products self) with
             | Some cp =>
                 sample (concat (map snd cp))
                   (Z.min num (Z.of_nat (length (concat (map snd cp))))) t
             | None => Returns ([], t)
             end = Returns (l1, t1)
             /\ forall p, In p l1 -> in_catalog self p).
  { destruct (lookup category (products self)) as [cp|] eqn:Hl.
    - unfold sample.
      destruct (Z.ltb_spec (Z.min num (Z.of_nat (length (concat (map snd cp))))) 0);
        [lia|].
      destruct (Z.ltb_spec (Z.of_nat (length (concat (map snd cp))))
                  (Z.min num (Z.of_nat (length (concat (map snd cp))))));
        [lia|].
      cbn [orb].
      destruct (draw (concat (map snd cp))
                  (Z.to_nat (Z.min num (Z.of_nat (length (concat (map snd cp)))))) t)
        as [l1 t1] eqn:D.
      exists l1, t1. split; [reflexivity|].
      intros p Hp. eapply in_all_products; [exact Hl|].
      apply (@draw_incl _ (Z.to_nat (Z.min num
               (Z.of_nat (length (concat (map snd cp)))))) _ t).
      rewrite D. exact Hp.
    - exists [], t. split; [reflexivity | intros ? []]. }
  destruct S as (l1 & t1 & -> & C1).
  destruct (with_history_ok self num l1 t1) as (more & t' & -> & _ & C2).
  destruct (upto_spec (unique (l1 ++ more)) num) as (k & Ek & Hk).
  exists (upto (unique (l1 ++ more)) num), t'. split; [reflexivity|].
  destruct (unique_from_spec (l1 ++ more) []) as [N I].
  rewrite Ek. split; [apply firstn_NoDup, N|]. split.
  + rewrite length_firstn, (Hk Hn). lia.
  + intros p Hp. apply firstn_In in Hp. destruct (I p Hp) as [Hp' _].
    apply in_app_or in Hp'. destruct Hp'; auto.
Qed.

(** X11: asked for [num >= 0] recommendations, [get_recommendations] returns
    at most [num] products with no product twice, all of them products of the
    tables; asked for a negative number it raises [ValueError] when the
    search has a category of the tables; and for a search with no such
    category and no history it returns the empty list. *)
Theorem recommendations_safe (self : ProductRecommender) (search_term : str)
    (num : Z) (t : tape) :
  ((0 <= num)%Z ->
   exists l t',
     get_recommendations U self search_term num t = Returns (l, t')
     /\ NoDup l
     /\ (Z.of_nat (length l) <= num)%Z
     /\ forall p, In p l -> in_catalog self p)
  /\ ((num < 0)%Z ->
      lookup (get_category_from_search U self search_term) (products self) <> None ->
      get_recommendations U self search_term num t = Raises "ValueError")
  /\ (lookup (get_category_from_search U self search_term) (products self) = None ->
      user_history self = [] ->
      get_recommendations U self search_term num t = Returns ([], t)).
Proof.
  split; [apply recommendations_ok|split].
  - intros Hn Hl. unfold get_recommendations.
    destruct (lookup _ (products self)) as [cp|]; [|congruence].
    unfold sample.
    destruct (Z.ltb_spec (Z.min num (Z.of_nat (length (concat (map snd cp))))) 0);
      [reflexivity | lia].
  - intros Hl Hh. unfold get_recommendations. rewrite Hl, Hh.
    unfold upto, unique. simpl. destruct (0 <=? num)%Z; rewrite firstn_nil; reflexivity.
Qed.

(** With a category of the tables whose products are all different, and
    [num] no more than their number, the recommendations are the sample. *)
Lemma sample_only (self : ProductRecommender)
    (search_term : str) (num : Z) (t : tape)
    (category_products : list (str * list str)) :
  lookup (get_category_from_search U self search_term) (products self)
  = Some category_products ->
  let all_products := concat (map snd category_products) in
  NoDup all_products ->
  (0 <= num <= Z.of_nat (length all_products))%Z ->
  exists t',
    get_recommendations U self search_term num t
    = Returns (fst (draw all_products (Z.to_nat num) t), t')
    /\ length (fst (draw all_products (Z.to_nat num) t)) = Z.to_nat num
    /\ forall p, In p (fst (draw all_products (Z.to_nat num) t)) ->
                 In p all_products.
Proof.
  intros Hl all_products Hd Hn. unfold get_recommendations. rewrite Hl.
  fold all_products. unfold sample.
  replace (Z.min num (Z.of_nat (length all_products))) with num by lia.
  destruct (Z.ltb_spec num 0); [lia|].
  destruct (Z.ltb_spec (Z.of_nat (length all_products)) num); [lia|]. cbn [orb].
  destruct (draw_permutation (Z.to_nat num) all_products t) as [Len _].
  pose proof (@draw_NoDup _ (Z.to_nat num) all_products t Hd) as Nd.
  pose proof (fun p => @draw_incl _ (Z.to_nat num) all_products t p) as Inc.
  destruct (draw all_products (Z.to_nat num) t) as [l1 t1]. cbn [fst] in *.
  assert (Len' : length l1 = Z.to_nat num) by lia.
  destruct (with_history_ok self num l1 t1) as (more & t' & -> & _ & _).
  exists t'. split; [|split; [exact Len' | exact Inc]].
  destruct (@unique_from_keeps l1 more [] Nd) as (rest & E); [intros ? _ []|].
  unfold unique. rewrite E. unfold upto.
  destruct (Z.leb_spec 0 num); [|lia].
  rewrite <- Len', firstn_length_app. reflexivity.
Qed.

(** X12: when the search has a category of the tables, the products of that
    category are all different and [num] is no more than their number, the
    recommendations are the [num] products drawn from that category and
    nothing else: what the history gives is cut off, whatever the history.
    With the tables of the program this is so for every [num] from 0 to 15:
    a search with a category gets exactly [num] recommendations, all of that
    category. *)
Theorem known_category_ignores_history (self : ProductRecommender)
    (search_term : str) (num : Z) (t : tape)
    (category_products : list (str * list str)) :
  lookup (get_category_from_search U self search_term) (products self)
  = Some category_products ->
  let all_products := concat (map snd category_products) in
  let drawn := fst (draw all_products (Z.to_nat num) t) in
  (NoDup all_products ->
   (0 <= num <= Z.of_nat (length all_products))%Z ->
   exists t',
     get_recommendations U self search_term num t = Returns (drawn, t')
     /\ length drawn = Z.to_nat num
     /\ forall p, In p drawn -> In p all_products)
  /\ (products self = catalog -> (0 <= num <= 15)%Z ->
      exists t',
        get_recommendations U self search_term num t = Returns (drawn, t')
        /\ length drawn = Z.to_nat num
        /\ forall p, In p drawn -> In p all_products).
Proof.
  intros Hl all_products drawn. split.
  - intros Hd Hn. exact (@sample_only self search_term num t _ Hl Hd Hn).
  - intros Hc Hn.
    pose proof (lookup_In _ _ Hl) as I. rewrite Hc in I.
    pose proof (proj1 (forallb_forall _ _) catalog_distinct _ I) as C.
    cbn [snd] in C. apply andb_true_iff in C. destruct C as [D L15].
    apply Nat.leb_le in L15.
    apply (@sample_only self search_term num t _ Hl (distinct_NoDup _ D)).
    fold all_products in L15 |- *. lia.
Qed.

End Recommendations.

(** ** The loop of [main] *)

Lemma unique_from_length (l seen : list str) :
  length (unique_from seen l) <= length l.
Proof.
  revert seen. induction l as [|x l IH]; intros seen; simpl; [lia|].
  destruct (mem x seen); [specialize (IH seen) | specialize (IH (x :: seen))];
    simpl; lia.
Qed.

Section Turn.

Variable U : UnicodeDB.

(** X13: a turn of the loop of [main].  A line of spaces does nothing;
    "quit", "history" and "categories", in any case and with spaces around
    them, leave the history as it is, and only "quit" ends the loop; any
    other line is put into the history in lowercase and answered with at most
    five different products of the tables, never with an error.  With the
    tables of the program the answer has exactly five products when the
    search has a category, and at most three, from the history, when it has
    none. *)
Theorem turn_of_main (recommender : ProductRecommender) (line : str) (t : tape) :
  let search_term := strip U line in
  let command := lower U search_term in
  (search_term = [] -> turn U recommender line t = (recommender, t, [], true))
  /\ (search_term <> [] ->
      (command = str_of "quit" ->
       turn U recommender line t = (recommender, t, [Farewell], false))
      /\ (command = str_of "history" ->
          turn U recommender line t
          = (recommender, t, [SearchHistory (user_history recommender)], true))
      /\ (command = str_of "categories" ->
          turn U recommender line t
          = (recommender, t, [Categories (map fst (products recommender))], true))
      /\ (command <> str_of "quit" -> command <> str_of "history" ->
          command <> str_of "categories" ->
          exists l t',
            turn U recommender line t
            = (add_to_history U recommender search_term, t',
               [Recommendations search_term l], true)
            /\ user_history (add_to_history U recommender search_term)
               = user_history recommender ++ [command]
            /\ NoDup l /\ length l <= 5
            /\ (forall p, In p l -> in_catalog recommender p)
            /\ (products recommender = catalog ->
                match lookup (get_category_from_search U recommender search_term)
                             catalog with
                | Some category_products =>
                    length l = 5
                    /\ forall p, In p l -> In p (concat (map snd category_products))
                | None => length l <= 3
                end))).
Proof.
  intros search_term command.
  assert (Hc : command = lower U search_term) by reflexivity.
  assert (Hs : strip U line = search_term) by reflexivity.
  clearbody command. clearbody search_term.
  unfold turn. rewrite Hs, <- Hc. split; [intros ->; reflexivity|].
  intros Ne. destruct search_term as [|c0 rest] eqn:Es; [contradiction|].
  rewrite <- Es in *. clear Es c0 rest.
  split; [intros ->; reflexivity|].
  split; [intros ->; reflexivity|].
  split; [intros ->; reflexivity|].
  intros Nq Nh Nc.
  apply str_eqb_neq in Nq, Nh, Nc. rewrite Nq, Nh, Nc.
  set (self := add_to_history U recommender search_term).
  destruct (@recommendations_ok U self search_term 5%Z t ltac:(lia))
    as (l & t' & E & Nd & Len & Cat).
  rewrite E. exists l, t'. split; [reflexivity|].
  split; [rewrite Hc; reflexivity|].
  split; [exact Nd|]. split; [lia|]. split; [exact Cat|].
  intros Hp.
  change (get_category_from_search U recommender search_term)
    with (get_category_from_search U self search_term).
  assert (Hps : products self = catalog) by exact Hp.
  destruct (lookup (get_category_from_search U self search_term) catalog)
    as [cp|] eqn:Hl.
  + pose proof (lookup_In _ _ Hl) as I.
    pose proof (proj1 (forallb_forall _ _) catalog_distinct _ I) as C.
    cbn [snd] in C. apply andb_true_iff in C. destruct C as [D L15].
    apply Nat.leb_le in L15. rewrite <- Hps in Hl.
    destruct (@sample_only U self search_term 5 t cp Hl (distinct_NoDup _ D)
                ltac:(lia)) as (t'' & E' & Len' & Inc).
    rewrite E' in E. injection E as <- _. split; [exact Len' | exact Inc].
  + unfold get_recommendations in E. rewrite <- Hps in Hl. rewrite Hl in E.
    destruct (@with_history_ok U self 5%Z [] t) as (more & t2 & Ew & Lw & _).
    rewrite Ew in E. injection E as <- _.
    unfold upto. change (0 <=? 5)%Z with true. cbn iota. cbn [app].
    rewrite length_firstn.
    pose proof (unique_from_length more []). unfold unique. lia.
Qed.

End Turn.

(** A recommender that has seen two searches, asked for five products for
    a third: the five are drawn from the products of "mobile". *)
Lemma known_category_ignores_history_witness :
  let self := add_to_history sample_db
                (add_to_history sample_db init (str_of "Board GAMES"))
                (str_of "a novel") in
  exists t',
    get_recommendations sample_db self (str_of "New Phone") 5 [7; 3; 11; 0; 2; 5; 1]
    = Returns (map str_of ["Wireless Charger"; "OnePlus 12"; "Lenovo Tab";
                           "iPhone 15"; "Xiaomi 14"]%string, t').
Proof.
  intros self.
  destruct (proj2 (@known_category_ignores_history sample_db self (str_of "New Phone")
                     5 [7; 3; 11; 0; 2; 5; 1] _ eq_refl) eq_refl ltac:(lia))
    as (t' & E & _).
  exists t'. exact E.
Defined.

Lemma recommendations_safe_witness :
  exists l t',
    get_recommendations sample_db init (str_of "display stand") 3 [4; 9]
    = Returns (l, t')
    /\ NoDup l /\ (Z.of_nat (length l) <= 3)%Z
    /\ forall p, In p l -> in_catalog init p.
Proof.
  exact (proj1 (recommendations_safe sample_db init (str_of "display stand") 3 [4; 9])
           ltac:(lia)).
Defined.

(** "Video Games to PLAY" has "play" in it, and is not "games". *)
Lemma category_of_search_witness :
  get_category_from_search sample_db init (str_of "Video Games to PLAY")
  <> str_of "games".
Proof.
  refine (proj2 (proj2 (proj2
            (@category_of_search sample_db init (str_of "Video Games to PLAY")))) _).
  exists (str_of "video games to "), []. reflexivity.
Defined.

(** The command is read whatever its case and the spaces around it. *)
Lemma turn_of_main_witness :
  turn sample_db init (str_of "  QUIT ") [] = (init, [], [Farewell], false).
Proof.
  refine (proj1 (proj2 (@turn_of_main sample_db init (str_of "  QUIT ") []) _) eq_refl).
  discriminate.
Defined.

End RecommenderFacts.

(** * More instances *)

(** "not the food was good": the marker is four tokens before "good", which
    counts as it stands. *)
Lemma negation_reach_witness :
  score (scan lexicon (start_state 0)
           (map str_of ["not"; "the"; "food"; "was"; "good"]%string))
  = (score (scan lexicon (start_state 0)
              (map str_of ["not"; "the"; "food"; "was"]%string)) + 1)%Z.
Proof.
  refine (proj2 (@negation_reach lexicon (start_state 0) (str_of "not")
                   (map str_of ["the"; "food"; "was"]%string) (str_of "good")
                   eq_refl eq_refl _ eq_refl eq_refl)).
  intros t [<-|[<-|[<-|[]]]]; reflexivity.
Defined.
